(** * Daily work report: the team summarization pipeline of [daily_report.py]

    A shallow embedding of the summarization core of [src/daily_report.py]:
    the remote summarizer client [hf_post], the response extractor
    [extract_summary_from_response], the bullet splitter [split_to_bullets],
    the raw-entry fallback [bulletify_tasks] and the per-team pipeline
    [summarize_team_tasks], followed by the properties of these functions.
    Of the callers, the grouping of the records by team and the height of a
    row in [generate_excel_by_team] and the counting of
    [generate_dept_team_summary] are embedded too; workbook, mail and
    database access are not.

    Conventions of the embedding.
    - A Python [str] is a [string]; each character stands for one code point
      below 256.  [len], slicing and the character classes work on code
      points.
    - Python integers ([max_points], [max_retries], sleep durations) are [Z].
    - Exceptions are values of [exn]; a computation that can raise returns a
      [result].  Network requests and [time.sleep] act on an explicit
      [world]; the remote endpoint is a function of the request number and
      of what was posted.
    - [print] calls only write diagnostics and are left out.
    - A record of the collection is a [report]: the values it holds under
      the keys that the code reads.  A call of [.strip()] on a value that is
      not a [str] raises; the grouping and counting loops return an [option],
      [None] standing for that exception. *)

From Stdlib Require Import ZArith Lia Ascii String.
From stdpp Require Import gmap strings list sorting.

#[local] Set Warnings "-clear-no-such-hyp".

Open Scope string_scope.
Open Scope list_scope.
Open Scope Z_scope.

(** ** Python string primitives *)

Module PyStr.

Definition code (c : ascii) : N := N_of_ascii c.

(** [str.isspace] on one character, and the class [\s] of [re] on [str]
    patterns: code points 9-13, 28-31, 32, 0x85 and 0xA0 (below 256). *)
Definition is_space (c : ascii) : bool :=
  let n := code c in
  ((9 <=? n) && (n <=? 13) || (28 <=? n) && (n <=? 32)
   || (n =? 133) || (n =? 160))%N.

(** The character set ['.!?']. *)
Definition is_terminal (c : ascii) : bool :=
  let n := code c in ((n =? 46) || (n =? 33) || (n =? 63))%N.

(** The character class [[\n;]]. *)
Definition is_line_sep (c : ascii) : bool :=
  let n := code c in ((n =? 10) || (n =? 59))%N.

(** [bool(s)] for a [str]: the empty string is falsy. *)
Definition truthy (s : string) : bool :=
  match s with EmptyString => false | String _ _ => true end.

Definition len (s : string) : Z := Z.of_nat (String.length s).

(** [s.lstrip(chars)], with the character set given as a predicate. *)
Fixpoint lstrip_chars (p : ascii → bool) (s : string) : string :=
  match s with
  | EmptyString => EmptyString
  | String c rest => if p c then lstrip_chars p rest else s
  end.

(** [s.rstrip(chars)]. *)
Fixpoint rstrip_chars (p : ascii → bool) (s : string) : string :=
  match s with
  | EmptyString => EmptyString
  | String c rest =>
      match rstrip_chars p rest with
      | EmptyString => if p c then EmptyString else String c EmptyString
      | String _ _ as rest' => String c rest'
      end
  end.

(** [s.strip()]. *)
Definition strip (s : string) : string :=
  rstrip_chars is_space (lstrip_chars is_space s).

(** [s[:n]] for [0 <= n]. *)
Definition prefix (n : nat) (s : string) : string := substring 0 n s.

(** [sep.join(l)]. *)
Definition join (sep : string) (l : list string) : string :=
  String.concat sep l.

(** [l[:n]] on a list: a negative [n] counts from the end. *)
Definition slice_to {A} (n : Z) (l : list A) : list A :=
  if 0 <=? n then take (Z.to_nat n) l
  else take (length l - Z.to_nat (- n))%nat l.

(** The last character of a string, if any. *)
Fixpoint last_char (s : string) : option ascii :=
  match s with
  | EmptyString => None
  | String c EmptyString => Some c
  | String _ rest => last_char rest
  end.

Definition first_char (s : string) : option ascii :=
  match s with EmptyString => None | String c _ => Some c end.

(** [n] copies of the character [c]. *)
Fixpoint replicate_char (n : nat) (c : ascii) : string :=
  match n with O => EmptyString | S n' => String c (replicate_char n' c) end.

End PyStr.

(** ** [re.split] for the two patterns of the bullet splitter

    Both patterns have the shape [(?<=[B])[C]+] (with or without the
    look-behind): a separator starts at a character of class [C] whose
    predecessor satisfies the look-behind, and extends over the whole run of
    [C] characters that follows.  The scan below walks the string once; it is
    either inside a piece ([InPiece ok], where [ok] tells whether a separator
    may start at the next character) or inside a separator ([InSep]). *)

Module Re.

Inductive scan := InPiece (ok : bool) | InSep.

Section Split.
Variable behind : option (ascii → bool).
Variable cls : ascii → bool.

Definition allows (c : ascii) : bool :=
  match behind with None => true | Some b => b c end.

Definition at_start : bool :=
  match behind with None => true | Some _ => false end.

Fixpoint split_go (st : scan) (cur : string) (s : string) : list string :=
  match s with
  | EmptyString => [cur]
  | String c rest =>
      match st with
      | InSep =>
          if cls c then split_go InSep EmptyString rest
          else split_go (InPiece (allows c)) (String c EmptyString) rest
      | InPiece ok =>
          if ok && cls c then cur :: split_go InSep EmptyString rest
          else split_go (InPiece (allows c)) (cur +:+ String c EmptyString) rest
      end
  end.

Definition split (s : string) : list string :=
  split_go (InPiece at_start) EmptyString s.
End Split.

(** [re.split(r'(?<=[\.\!\?])\s+', s)]. *)
Definition split_sentences : string → list string :=
  split (Some PyStr.is_terminal) PyStr.is_space.

(** [re.split(r'[\n;]+', s)]. *)
Definition split_lines : string → list string :=
  split None PyStr.is_line_sep.

End Re.

(** ** The bullet splitter *)

Definition long_enough (s : string) : Prop := 10 < PyStr.len (PyStr.strip s).

#[global] Instance long_enough_dec s : Decision (long_enough s) :=
  Z.lt_dec 10 (PyStr.len (PyStr.strip s)).

Definition split_to_bullets (text : string) (max_points : Z) : list string :=
  if negb (PyStr.truthy text) then []
  else
    let sentences := Re.split_sentences (PyStr.strip text) in
    let clean :=
      (λ s, PyStr.rstrip_chars PyStr.is_terminal (PyStr.strip s))
        <$> filter long_enough sentences in
    let clean :=
      if (length clean =? 0)%nat then
        let parts := Re.split_lines text in
        PyStr.strip <$> filter long_enough parts
      else clean in
    PyStr.slice_to max_points clean.

(** ** API responses and the response extractor *)

(** The value returned by [resp.json()]: [None], a boolean, a number, a
    [str], a [list] or a [dict] with string keys. *)
#[warnings="-register-all"]
Inductive pyval :=
| PNone
| PBool (b : bool)
| PInt (n : Z)
| PFloat (repr : string)
| PStr (s : string)
| PList (items : list pyval)
| PDict (fields : gmap string pyval).

(** The outcome of a block of statements: it executed [return v], or control
    fell through to the statement after it. *)
Inductive flow (A : Type) :=
| Return (v : A)
| Fallthrough.
Arguments Return {A} v.
Arguments Fallthrough {A}.

(** [returning b next]: the value returned by a function whose body is the
    block [b] followed by the statements [next]. *)
Definition returning {A} (b : flow A) (next : A) : A :=
  match b with Return v => v | Fallthrough => next end.

Definition summary_keys : list string :=
  ["summary_text"; "generated_text"; "text"].

(** [for key in keys: if key in d and isinstance(d[key], str): return d[key]] *)
Fixpoint field_loop (keys : list string) (d : gmap string pyval)
  : flow (option string) :=
  match keys with
  | [] => Fallthrough
  | key :: rest =>
      match d !! key with
      | Some (PStr s) => Return (Some s)
      | _ => field_loop rest d
      end
  end.

Definition extract_summary_from_response (resp : pyval) : option string :=
  returning (match resp with PNone => Return None | _ => Fallthrough end) $
  returning (match resp with PStr s => Return (Some s) | _ => Fallthrough end) $
  returning
    (match resp with
     | PList (first :: _) =>
         match (match first with
                | PDict d => field_loop summary_keys d
                | _ => Fallthrough
                end) with
         | Return v => Return v
         | Fallthrough =>
             match first with
             | PStr s => Return (Some s)
             | _ => Fallthrough
             end
         end
     | _ => Fallthrough
     end) $
  returning
    (match resp with
     | PDict d => field_loop summary_keys d
     | _ => Fallthrough
     end) $
  None.

(** ** Exceptions, the world and the monad of the pipeline *)

(** The exceptions that occur: [requests.exceptions.RequestException] (any
    failed request, including a non-2xx status), [RuntimeError], and any
    other [Exception] raised while a request is made or decoded. *)
Inductive exn :=
| RequestException (detail : string)
| RuntimeError (msg : string)
| OtherException (detail : string).

Inductive result (A : Type) :=
| Ok (v : A)
| Raise (e : exn).
Arguments Ok {A} v.
Arguments Raise {A} e.

(** What one [requests.post(...)], [raise_for_status()], [resp.json()]
    sequence does: it yields the decoded body or raises. *)
Inductive attempt :=
| Responded (body : pyval)
| Failed (e : exn).

(** The effects: the texts posted so far, in order, and the durations passed
    to [time.sleep], in order. *)
Record world := World { posted : list string; slept : list Z }.

Definition M (A : Type) : Type := world → result A * world.

Definition ret {A} (v : A) : M A := λ w, (Ok v, w).

Definition raise {A} (e : exn) : M A := λ w, (Raise e, w).

Definition bind {A B} (m : M A) (k : A → M B) : M B :=
  λ w, match m w with
       | (Ok v, w') => k v w'
       | (Raise e, w') => (Raise e, w')
       end.

Notation "x <- m ;; k" := (bind m (λ x, k))
  (at level 100, m at next level, right associativity, only parsing).
Notation "m ;;; k" := (bind m (λ _, k))
  (at level 100, right associativity, only parsing).

(** [try: body  except E: handler], where [catches] tells which exceptions
    [E] matches. *)
Definition try_except {A} (catches : exn → bool) (body : M A)
    (handler : exn → M A) : M A :=
  λ w, match body w with
       | (Raise e, w') => if catches e then handler e w' else (Raise e, w')
       | r => r
       end.

Definition is_request_exception (e : exn) : bool :=
  match e with RequestException _ => true | _ => false end.

(** Every exception of [exn] is an [Exception]. *)
Definition is_exception (e : exn) : bool := true.

(** [time.sleep(d)]. *)
Definition sleep (d : Z) : M unit :=
  λ w, (Ok tt, World (posted w) (slept w ++ [d])).

(** [range(lo, hi)] *)
Definition py_range (lo hi : Z) : list Z :=
  (λ k, lo + Z.of_nat k) <$> seq 0 (Z.to_nat (hi - lo)).

(** [range(0, stop, step)] for a positive [step]. *)
Definition py_range_step (stop step : nat) : list nat :=
  (λ k, k * step)%nat <$> seq 0 ((stop + step - 1) / step)%nat.

Section Pipeline.

(** The summarization endpoint: what the request number [n] (counted from
    0 over the whole run) answers to the posted text under the given
    timeout. *)
Variable remote : nat → string → Z → attempt.

(** [requests.post(HF_API_URL, headers=HF_HEADERS, json=payload,
    timeout=timeout)] followed by [resp.raise_for_status()] and
    [resp.json()]. *)
Definition requests_post (text : string) (timeout : Z) : M pyval :=
  λ w,
    let w' := World (posted w ++ [text]) (slept w) in
    match remote (length (posted w)) text timeout with
    | Responded body => (Ok body, w')
    | Failed e => (Raise e, w')
    end.

Definition backoff : Z := 2.

Fixpoint hf_post_loop (attempts : list Z) (text : string) (timeout : Z)
    (max_retries : Z) : M pyval :=
  match attempts with
  | [] => raise (RuntimeError "HF post retries exhausted")
  | attempt :: rest =>
      try_except is_request_exception
        (requests_post text timeout)
        (λ e,
           if attempt =? max_retries then raise e
           else
             let sleep_for := backoff ^ attempt in
             sleep sleep_for ;;;
             hf_post_loop rest text timeout max_retries)
  end.

Definition hf_post (text : string) (timeout : Z) (max_retries : Z)
  : M pyval :=
  hf_post_loop (py_range 1 (max_retries + 1)) text timeout max_retries.

(** *** The stages of [summarize_team_tasks] *)

(** One iteration of the deduplicating loop: [dedup] is the list built so
    far, [seen] the set of its values.  An entry is a [str] already, so
    [str(t)] is [t]. *)
Definition dedup_step (acc : list string * gset string) (t : string)
  : list string * gset string :=
  let '(dedup, seen) := acc in
  let s := PyStr.strip t in
  if PyStr.truthy s && bool_decide (s ∉ seen)
  then (dedup ++ [s], seen ∪ {[s]})
  else (dedup, seen).

(** Lines 95-101: the Deduplicator. *)
Definition dedup_tasks (tasks_list : list string) : list string :=
  (foldl dedup_step ([], ∅) tasks_list).1.

(** The same loop with its [break]: [bulletify_loop] continues from the
    state [(dedup, seen)]. *)
Fixpoint bulletify_loop (max_bullets : Z) (tasks_list : list string)
    (acc : list string * gset string) : list string :=
  match tasks_list with
  | [] => acc.1
  | t :: rest =>
      let acc' := dedup_step acc t in
      if Z.of_nat (length acc'.1) >=? max_bullets then acc'.1
      else bulletify_loop max_bullets rest acc'
  end.

Definition bulletify_tasks (tasks_list : list string) (max_bullets : Z)
  : list string :=
  bulletify_loop max_bullets tasks_list ([], ∅).

(** ["\n".join([f"- {p}" for p in points])] *)
Definition bullet_block (points : list string) : string :=
  PyStr.join (String "010" EmptyString) ((λ p, "- " +:+ p) <$> points).

(** [sum(len(x) for x in dedup)] *)
Definition joined_len (dedup : list string) : Z :=
  foldr (λ x acc, PyStr.len x + acc) 0 dedup.

(** [if summary_text: points = split_to_bullets(summary_text, max_points);
    if points: return ...]: the bullets to return, if any. *)
Definition usable_points (summary_text : option string) (max_points : Z)
  : flow (list string) :=
  match summary_text with
  | Some text =>
      if PyStr.truthy text then
        let points := split_to_bullets text max_points in
        match points with
        | [] => Fallthrough
        | _ :: _ => Return points
        end
      else Fallthrough
  | None => Fallthrough
  end.

(** Lines 106-116: the direct call.  [Return points] when the function
    returns the block of [points]; [Fallthrough] when control reaches the
    chunked stage, after an exception or not. *)
Definition direct_call (dedup : list string) (max_points : Z)
  : M (flow (list string)) :=
  try_except is_exception
    (if (Z.of_nat (length dedup) <=? 6) && (joined_len dedup <? 1200) then
       let text := PyStr.join " . " dedup in
       resp <- hf_post text 120 3 ;;
       let summary_text := extract_summary_from_response resp in
       ret (usable_points summary_text max_points)
     else ret Fallthrough)
    (λ e, ret Fallthrough).

Definition chunk_size : nat := 10.

(** [chunk_summary or chunk_text[:1000]] *)
Definition summary_or (chunk_summary : option string) (other : string)
  : string :=
  match chunk_summary with
  | Some s => if PyStr.truthy s then s else other
  | None => other
  end.

(** The body of the loop over chunks (lines 121-129), for the chunk that
    starts at index [i]: the string appended to [chunk_summaries]. *)
Definition summarize_chunk (dedup : list string) (i : nat) : M string :=
  let chunk := take chunk_size (drop i dedup) in
  let chunk_text := PyStr.join " . " chunk in
  try_except is_exception
    (resp <- hf_post chunk_text 120 2 ;;
     let chunk_summary := extract_summary_from_response resp in
     ret (summary_or chunk_summary (PyStr.prefix 1000 chunk_text)))
    (λ e, ret (PyStr.join " . " chunk)).

Fixpoint chunk_loop (dedup : list string) (starts : list nat)
    (chunk_summaries : list string) : M (list string) :=
  match starts with
  | [] => ret chunk_summaries
  | i :: rest =>
      s <- summarize_chunk dedup i ;;
      chunk_loop dedup rest (chunk_summaries ++ [s])
  end.

(** Lines 118-129. *)
Definition chunked_calls (dedup : list string) : M (list string) :=
  chunk_loop dedup (py_range_step (length dedup) chunk_size) [].

(** Lines 131-140: the combine pass. *)
Definition combine_pass (chunk_summaries : list string) (max_points : Z)
  : M (flow (list string)) :=
  try_except is_exception
    (let combined := PyStr.join " " chunk_summaries in
     resp2 <- hf_post combined 120 2 ;;
     let final_summary_text := extract_summary_from_response resp2 in
     ret (usable_points final_summary_text max_points))
    (λ e, ret Fallthrough).

(** The bullets of the result: the list that [summarize_team_tasks] joins
    at the [return] it reaches.  The sentinel of the empty case is the one
    bullet ["No tasks reported."]. *)
Definition summary_points (tasks_list : list string) (max_points : Z)
  : M (list string) :=
  let dedup := dedup_tasks tasks_list in
  match dedup with
  | [] => ret ["No tasks reported."]
  | _ :: _ =>
      direct <- direct_call dedup max_points ;;
      match direct with
      | Return points => ret points
      | Fallthrough =>
          chunk_summaries <- chunked_calls dedup ;;
          combined <- combine_pass chunk_summaries max_points ;;
          match combined with
          | Return points => ret points
          | Fallthrough => ret (bulletify_tasks dedup max_points)
          end
      end
  end.

Definition summarize_team_tasks (tasks_list : list string) (max_points : Z)
  : M string :=
  let dedup := dedup_tasks tasks_list in
  match dedup with
  | [] => ret "- No tasks reported."
  | _ :: _ =>
      direct <- direct_call dedup max_points ;;
      match direct with
      | Return points => ret (bullet_block points)
      | Fallthrough =>
          chunk_summaries <- chunked_calls dedup ;;
          combined <- combine_pass chunk_summaries max_points ;;
          match combined with
          | Return points => ret (bullet_block points)
          | Fallthrough =>
              let fallback := bulletify_tasks dedup max_points in
              ret (bullet_block fallback)
          end
      end
  end.

End Pipeline.

(** ** The extraction rules as the specification words them

    "the value itself if it is a plain string; if it is an ordered sequence,
    its first element (following the same string/field rules); if it is a
    keyed structure, the first present field among a fixed preference list". *)

Fixpoint first_present_field (keys : list string) (d : gmap string pyval)
  : option pyval :=
  match keys with
  | [] => None
  | key :: rest =>
      match d !! key with
      | Some v => Some v
      | None => first_present_field rest d
      end
  end.

Definition text_of (v : pyval) : option string :=
  match v with PStr s => Some s | _ => None end.

Definition spec_extract_rules (v : pyval) : option string :=
  match v with
  | PStr s => Some s
  | PDict d => first_present_field summary_keys d ≫= text_of
  | _ => None
  end.

Definition spec_extract (resp : pyval) : option string :=
  match resp with
  | PList (first :: _) => spec_extract_rules first
  | _ => spec_extract_rules resp
  end.

(** The field rule the code applies: the first key of the preference list
    that is present with a [str] value. *)
Definition first_text_field (d : gmap string pyval) : option string :=
  match d !! "summary_text" with
  | Some (PStr s) => Some s
  | _ =>
      match d !! "generated_text" with
      | Some (PStr s) => Some s
      | _ =>
          match d !! "text" with
          | Some (PStr s) => Some s
          | _ => None
          end
      end
  end.

(** ** Shapes of strings *)

Definition no_leading_space (s : string) : Prop :=
  ∀ c, PyStr.first_char s = Some c → PyStr.is_space c = false.

Definition no_trailing_space (s : string) : Prop :=
  ∀ c, PyStr.last_char s = Some c → PyStr.is_space c = false.

Definition ends_with_terminal (s : string) : Prop :=
  ∃ c, PyStr.last_char s = Some c ∧ PyStr.is_terminal c = true.

(** ** First occurrences and the invariant of the deduplicating loop *)

(** The index of the first occurrence of [x] in [l]. *)
Fixpoint first_occurrence (x : string) (l : list string) : option nat :=
  match l with
  | [] => None
  | y :: rest =>
      if decide (x = y) then Some 0%nat else S <$> first_occurrence x rest
  end.

(** What holds of the loop state after the entries [tasks] have been
    processed. *)
Record dedup_inv (tasks : list string) (acc : list string * gset string)
  : Prop := {
  inv_seen : ∀ s, s ∈ acc.2 ↔ s ∈ acc.1;
  inv_nodup : NoDup acc.1;
  inv_elems : ∀ s, s ∈ acc.1 ↔ s ≠ "" ∧ s ∈ PyStr.strip <$> tasks;
  inv_order : ∀ i j a b,
    acc.1 !! i = Some a → acc.1 !! j = Some b → (i < j)%nat →
    ∃ ia ib, first_occurrence a (PyStr.strip <$> tasks) = Some ia
             ∧ first_occurrence b (PyStr.strip <$> tasks) = Some ib
             ∧ (ia < ib)%nat
}.

(** ** Computations that end without raising *)

(** [returns m w]: run from [w], [m] ends with a value. *)
Definition returns {A} (m : M A) (w : world) : Prop :=
  ∃ v w', m w = (Ok v, w').

(** ** Concrete endpoints and inputs *)

Definition quiet : world := World [] [].

(** An endpoint that fails every request. *)
Definition remote_down : nat → string → Z → attempt :=
  λ _ _ _, Failed (RequestException "503 Server Error").

(** An endpoint that fails the first two requests and then answers [body]. *)
Definition remote_third_time (body : pyval) : nat → string → Z → attempt :=
  λ n _ _,
    if (n <? 2)%nat then Failed (RequestException "timed out")
    else Responded body.

(** An endpoint whose requests all fail, each in its own way. *)
Definition remote_failing : nat → string → Z → attempt :=
  λ n _ _,
    Failed (RequestException
              match n with
              | O => "connection reset"
              | S O => "timed out"
              | _ => "503 Server Error"
              end).

(** An endpoint that answers every request with [body]. *)
Definition remote_up (body : pyval) : nat → string → Z → attempt :=
  λ _ _ _, Responded body.

(** One task entry of 1001 characters. *)
Definition long_entry : string := PyStr.replicate_char 1001 "a".

(** ** What the client spends *)

(** The result of [hf_post] when the attempt [a] is its last. *)
Definition attempt_result (a : attempt) : result pyval :=
  match a with Responded body => Ok body | Failed e => Raise e end.

(** An attempt that [hf_post] answers with a retry, if one is left. *)
Definition retryable (a : attempt) : bool :=
  match a with Failed (RequestException _) => true | _ => false end.

(** The durations slept after [failed] attempts that were retried:
    [backoff ** 1], ..., [backoff ** failed]. *)
Definition backoff_waits (failed : nat) : list Z :=
  (λ i, backoff ^ Z.of_nat i) <$> seq 1 failed.

(** [sum(l)] *)
Definition sum_Z (l : list Z) : Z := foldr Z.add 0 l.

(** The chunks that the loop of lines 120-121 goes through:
    [dedup[i:i+chunk_size]] for [i] in [range(0, len(dedup), chunk_size)]. *)
Definition chunks_of (dedup : list string) : list (list string) :=
  (λ i, take chunk_size (drop i dedup))
    <$> py_range_step (length dedup) chunk_size.

(** [spends m w requests seconds]: run from [w], [m] only appends to the
    world, at most [requests] posted texts and sleeps of at most [seconds]
    in all. *)
Definition spends {A} (m : M A) (w : world) (requests : nat) (seconds : Z)
  : Prop :=
  ∃ ps ss,
    posted (m w).2 = posted w ++ ps ∧ slept (m w).2 = slept w ++ ss
    ∧ (length ps ≤ requests)%nat ∧ sum_Z ss ≤ seconds.

(** ** The row of a summary in the sheet *)

(** [s.count("\n")] *)
Fixpoint count_newlines (s : string) : Z :=
  match s with
  | EmptyString => 0
  | String c rest =>
      (if (PyStr.code c =? 10)%N then 1 else 0) + count_newlines rest
  end.

(** Lines 175-176 of [generate_excel_by_team]: the height of the row that
    receives [summary_text]. *)
Definition row_height (summary_text : string) : Z :=
  let lines := count_newlines summary_text + 1 in
  Z.max 20 (Z.min 300 (lines * 16)).

(** ** Fragments of a text *)

(** [b] occurs in [s] as a run of consecutive characters. *)
Definition substring_of (b s : string) : Prop :=
  ∃ pre post, s = pre +:+ b +:+ post.

(** ** The records of the day and their grouping by team *)

(** A value of the list under ["tasks"]: a [dict], or any other value, of
    which the code reads [str(t)] only. *)
Inductive task_value :=
| TaskDict (fields : gmap string pyval)
| TaskOther (str : string).

(** A record of the collection, as far as the report reads it: the values
    under ["team"], ["department"] and ["employee_name"] ([None] when the key
    is missing) and the list under ["tasks"] ([[]] when the key is missing or
    holds [None]). *)
Record report := Report {
  rec_team : option pyval;
  rec_department : option pyval;
  rec_employee : option pyval;
  rec_tasks : list task_value
}.

(** [v.strip()]: only a [str] has the method; on any other value the call
    raises [AttributeError], which is the result [None] here. *)
Definition strip_value (v : pyval) : option string :=
  match v with PStr s => Some (PyStr.strip s) | _ => None end.

(** [d.get(key, fallback).strip()], for the value [field] under [key]. *)
Definition get_stripped (field : option pyval) (fallback : string)
  : option string :=
  strip_value (default (PStr fallback) field).

(** Lines 151-154: the details of one task. *)
Definition task_details (t : task_value) : option string :=
  match t with
  | TaskDict fields => get_stripped (fields !! "details") ""
  | TaskOther str => Some (PyStr.strip str)
  end.

(** Lines 151-156: [team_tasks] is the [defaultdict(list)]; a key exists
    once something was appended under it. *)
Definition append_task (team : string) (team_tasks : gmap string (list string))
    (t : task_value) : option (gmap string (list string)) :=
  details ← task_details t;
  Some (if PyStr.truthy details
        then <[team := default [] (team_tasks !! team) ++ [details]]> team_tasks
        else team_tasks).

Fixpoint tasks_loop (team : string) (team_tasks : gmap string (list string))
    (ts : list task_value) : option (gmap string (list string)) :=
  match ts with
  | [] => Some team_tasks
  | t :: rest =>
      team_tasks' ← append_task team team_tasks t;
      tasks_loop team team_tasks' rest
  end.

Fixpoint records_loop (team_tasks : gmap string (list string))
    (data : list report) : option (gmap string (list string)) :=
  match data with
  | [] => Some team_tasks
  | record :: rest =>
      team ← get_stripped (rec_team record) "";
      team_tasks' ← tasks_loop team team_tasks (rec_tasks record);
      records_loop team_tasks' rest
  end.

(** Lines 146-156 of [generate_excel_by_team]. *)
Definition group_by_team (data : list report)
  : option (gmap string (list string)) :=
  records_loop ∅ data.

(** The non-blank details of a list of tasks, in order. *)
Definition kept_details (ts : list task_value) : list string :=
  filter (λ s, s ≠ "") (omap task_details ts).

(** The non-blank details of the records of [team], in order. *)
Fixpoint team_details (team : string) (data : list report) : list string :=
  match data with
  | [] => []
  | record :: rest =>
      (if decide (get_stripped (rec_team record) "" = Some team)
       then kept_details (rec_tasks record) else [])
      ++ team_details team rest
  end.


(** The stored lists are never empty. *)
Definition no_empty_group (team_tasks : gmap string (list string)) : Prop :=
  ∀ team l, team_tasks !! team = Some l → l ≠ [].


(** ** The department and team table *)

(** Lines 188-191 of [generate_dept_team_summary]: the entry of
    [(dept, team)] holds the set ["employees"] and the set ["reported"]; it
    is created when it is first looked up. *)
Definition count_employee
    (summary : gmap (string * string) (gset string * gset string))
    (dept team emp : string) (tasks : list task_value)
  : gmap (string * string) (gset string * gset string) :=
  if PyStr.truthy emp then
    let info : gset string * gset string :=
      default (∅, ∅) (summary !! (dept, team)) in
    let info : gset string * gset string := (info.1 ∪ {[emp]}, info.2) in
    let info : gset string * gset string :=
      match tasks with
      | [] => info
      | _ :: _ => (info.1, info.2 ∪ {[emp]})
      end in
    <[(dept, team) := info]> summary
  else summary.

(** Lines 185-191. *)
Definition add_employee
    (summary : gmap (string * string) (gset string * gset string))
    (record : report)
  : option (gmap (string * string) (gset string * gset string)) :=
  dept ← get_stripped (rec_department record) "Unknown";
  team ← get_stripped (rec_team record) "Unknown";
  emp ← get_stripped (rec_employee record) "";
  Some (count_employee summary dept team emp (rec_tasks record)).

Fixpoint employees_loop
    (summary : gmap (string * string) (gset string * gset string))
    (data : list report)
  : option (gmap (string * string) (gset string * gset string)) :=
  match data with
  | [] => Some summary
  | record :: rest =>
      summary' ← add_employee summary record;
      employees_loop summary' rest
  end.

(** Lines 183-191. *)
Definition dept_team_summary (data : list report)
  : option (gmap (string * string) (gset string * gset string)) :=
  employees_loop ∅ data.

(** The order of Python on pairs of [str]: by the first components, then by
    the second ones; a [str] is compared character by character, by code
    point. *)
Definition key_leb (a b : string * string) : bool :=
  match String.compare a.1 b.1 with
  | Lt => true
  | Eq => String.leb a.2 b.2
  | Gt => false
  end.

Definition item_le {V} (x y : (string * string) * V) : Prop :=
  key_leb x.1 y.1 = true.

#[global] Instance item_le_dec {V} : RelDecision (@item_le V) :=
  λ x y, decide (key_leb x.1 y.1 = true).

(** Lines 193-194: the rows of the table in the order of
    [sorted(summary.items())], each with the department, the team and
    [len(info["reported"])].  The items have distinct keys, so their order is
    the order of the keys. *)
Definition summary_rows (data : list report)
  : option (list (string * string * nat)) :=
  summary ← dept_team_summary data;
  Some ((λ item : (string * string) * (gset string * gset string),
           (item.1.1, item.1.2, size item.2.2))
          <$> merge_sort item_le (map_to_list summary)).

(** The record [record] counts the employee [emp] under [(dept, team)]. *)
Definition names_employee (record : report) (dept team emp : string) : Prop :=
  get_stripped (rec_department record) "Unknown" = Some dept
  ∧ get_stripped (rec_team record) "Unknown" = Some team
  ∧ get_stripped (rec_employee record) "" = Some emp
  ∧ emp ≠ "".

(** * Properties *)

(** ** Stripping *)

Section Strip.
Variable p : ascii → bool.

Lemma lstrip_chars_first s c :
  PyStr.first_char (PyStr.lstrip_chars p s) = Some c → p c = false.
Proof.
  induction s as [|a s IH]; simpl; [done|].
  destruct (p a) eqn:Ha; [done|].
  simpl. intros [= <-]. done.
Qed.

Lemma lstrip_chars_id s :
  (∀ c, PyStr.first_char s = Some c → p c = false) →
  PyStr.lstrip_chars p s = s.
Proof.
  destruct s as [|a s]; simpl; [done|].
  intros H. by rewrite (H a eq_refl).
Qed.

Lemma rstrip_chars_last s c :
  PyStr.last_char (PyStr.rstrip_chars p s) = Some c → p c = false.
Proof.
  revert c. induction s as [|a s IH]; intros c; simpl; [done|].
  destruct (PyStr.rstrip_chars p s) as [|b r] eqn:E.
  - destruct (p a) eqn:Ha; simpl; [done|]. by intros [= <-].
  - simpl. intros H. apply IH. simpl. done.
Qed.

Lemma rstrip_chars_id s :
  (∀ c, PyStr.last_char s = Some c → p c = false) →
  PyStr.rstrip_chars p s = s.
Proof.
  induction s as [|a s IH]; simpl; [done|].
  intros H. destruct s as [|b r].
  - simpl. by rewrite (H a eq_refl).
  - rewrite IH; [done|]. intros c Hc. apply H. done.
Qed.

(** Stripping on the right keeps the first character of what is left. *)
Lemma rstrip_chars_first s c :
  PyStr.first_char (PyStr.rstrip_chars p s) = Some c →
  PyStr.first_char s = Some c.
Proof.
  destruct s as [|a s]; simpl; [done|].
  destruct (PyStr.rstrip_chars p s); [destruct (p a)|]; simpl; done.
Qed.

Lemma rstrip_chars_length s :
  (String.length (PyStr.rstrip_chars p s) ≤ String.length s)%nat.
Proof.
  induction s as [|a s IH]; simpl; [done|].
  destruct (PyStr.rstrip_chars p s); [destruct (p a)|]; simpl in *; lia.
Qed.
End Strip.

Lemma strip_no_leading_space s : no_leading_space (PyStr.strip s).
Proof.
  intros c Hc. apply rstrip_chars_first in Hc.
  by apply lstrip_chars_first in Hc.
Qed.

Lemma strip_no_trailing_space s : no_trailing_space (PyStr.strip s).
Proof. intros c Hc. by apply rstrip_chars_last in Hc. Qed.

Lemma strip_fixed s :
  no_leading_space s → no_trailing_space s → PyStr.strip s = s.
Proof.
  intros Hl Hr. unfold PyStr.strip.
  rewrite (lstrip_chars_id _ s Hl). by apply rstrip_chars_id.
Qed.

Lemma strip_idempotent s : PyStr.strip (PyStr.strip s) = PyStr.strip s.
Proof.
  apply strip_fixed; [apply strip_no_leading_space|apply strip_no_trailing_space].
Qed.

Lemma fixed_no_space s :
  PyStr.strip s = s → no_leading_space s ∧ no_trailing_space s.
Proof.
  intros <-. split; [apply strip_no_leading_space|apply strip_no_trailing_space].
Qed.

Lemma truthy_nonempty s : PyStr.truthy s = true ↔ s ≠ "".
Proof. destruct s; simpl; split; (done || congruence). Qed.

Lemma long_enough_nonempty s : long_enough s → PyStr.strip s ≠ "".
Proof. unfold long_enough, PyStr.len. intros H E. rewrite E in H. simpl in H. lia. Qed.

(** ** List slicing *)

Lemma slice_to_elem_of {A} (n : Z) (l : list A) x :
  x ∈ PyStr.slice_to n l → x ∈ l.
Proof.
  unfold PyStr.slice_to. destruct (0 <=? n); intros H;
    by apply elem_of_take in H as (i & H & _); eapply list_elem_of_lookup_2.
Qed.

Lemma slice_to_length {A} (n : Z) (l : list A) :
  0 ≤ n → Z.of_nat (length (PyStr.slice_to n l)) ≤ n.
Proof.
  intros Hn. unfold PyStr.slice_to.
  destruct (Z.leb_spec 0 n); [|lia]. rewrite length_take. lia.
Qed.

(** ** The bullet splitter *)

(** The two splits on small inputs: a separator needs the punctuation right
    before the whitespace, it swallows the whole run, and an input that
    begins or ends with a separator gives an empty piece there. *)
Example split_sentences_runs :
  Re.split_sentences "a.  b! c?d. " = ["a."; "b!"; "c?d."; ""]
  ∧ Re.split_sentences "a . b" = ["a ."; "b"]
  ∧ Re.split_sentences "no stop here" = ["no stop here"]
  ∧ Re.split_sentences "" = [""].
Proof. repeat split; reflexivity. Qed.

Example split_lines_runs :
  Re.split_lines ";a;;b;" = [""; "a"; "b"; ""]
  ∧ Re.split_lines (String "a" (String "010" (String "010" "b"))) = ["a"; "b"]
  ∧ Re.split_lines "a. b" = ["a. b"].
Proof. repeat split; reflexivity. Qed.

Lemma split_to_bullets_source text max_points b :
  b ∈ split_to_bullets text max_points →
  (∃ u, u ∈ Re.split_sentences (PyStr.strip text) ∧ long_enough u
        ∧ b = PyStr.rstrip_chars PyStr.is_terminal (PyStr.strip u))
  ∨ (∃ u, u ∈ Re.split_lines text ∧ long_enough u ∧ b = PyStr.strip u).
Proof.
  unfold split_to_bullets. destruct (negb (PyStr.truthy text)).
  { intros H. by apply elem_of_nil in H. }
  intros H%slice_to_elem_of.
  destruct (_ =? _)%nat.
  - right. apply list_elem_of_fmap in H as (u & -> & Hu).
    apply list_elem_of_filter in Hu as [Hlong Hu]. eauto.
  - left. apply list_elem_of_fmap in H as (u & -> & Hu).
    apply list_elem_of_filter in Hu as [Hlong Hu]. eauto.
Qed.



(** C7, as the code has it: every bullet has no leading whitespace and comes
    from a unit whose stripped length, taken before trailing punctuation is
    removed, is more than 10.  A bullet of the sentence split is that unit
    without its trailing ['.'], ['!'], ['?'], and does not end in one of them;
    a bullet of the newline/semicolon split is the stripped part itself: it
    is non-empty and has no trailing whitespace. *)
Theorem split_to_bullets_bullet_shape text max_points b :
  b ∈ split_to_bullets text max_points →
  no_leading_space b
  ∧ ((∃ u, u ∈ Re.split_sentences (PyStr.strip text)
           ∧ 10 < PyStr.len (PyStr.strip u)
           ∧ b = PyStr.rstrip_chars PyStr.is_terminal (PyStr.strip u)
           ∧ ¬ ends_with_terminal b)
     ∨ (∃ u, u ∈ Re.split_lines text
             ∧ 10 < PyStr.len (PyStr.strip u)
             ∧ b = PyStr.strip u
             ∧ b ≠ "" ∧ no_trailing_space b)).
Proof.
  intros [(u & Hu & Hlong & ->)|(u & Hu & Hlong & ->)]%split_to_bullets_source.
  - split.
    + intros c Hc%rstrip_chars_first. by apply strip_no_leading_space in Hc.
    + left. exists u. repeat split; try done.
      intros (c & Hc%rstrip_chars_last & Ht). congruence.
  - split; [apply strip_no_leading_space|].
    right. exists u. repeat split; try done.
    + by apply long_enough_nonempty.
    + apply strip_no_trailing_space.
Qed.

Lemma split_to_bullets_bullet_shape_witness :
  "Did task A" ∈ split_to_bullets "Did task A. Did task B! Did task C?" 5
  ∧ no_leading_space "Did task A".
Proof.
  assert (H : "Did task A"
              ∈ split_to_bullets "Did task A. Did task B! Did task C?" 5)
    by (vm_compute; left).
  split; [exact H|].
  exact (proj1 (split_to_bullets_bullet_shape _ _ _ H)).
Defined.

(** C7 as stated does not hold: a bullet can be empty. *)
Lemma split_to_bullets_bullet_shape_fails :
  ¬ (∀ text max_points b,
       b ∈ split_to_bullets text max_points →
       b ≠ "" ∧ PyStr.strip b = b ∧ ¬ ends_with_terminal b).
Proof.
  intros H.
  destruct (H "???????????" 5 "") as [Hne _]; [vm_compute; left|].
  by apply Hne.
Qed.

(** Further inputs on which the stated shape fails: trailing whitespace
    after the punctuation is removed, punctuation kept by the
    newline/semicolon split, and a unit of 9 characters once its punctuation
    is removed. *)
Example split_to_bullets_trailing_space :
  split_to_bullets "Completed the report ." 5 = ["Completed the report "].
Proof. vm_compute; reflexivity. Qed.

Example split_to_bullets_short_after_trim :
  split_to_bullets "abcdefghi.." 5 = ["abcdefghi"].
Proof. vm_compute; reflexivity. Qed.

(** ** The response extractor *)

Lemma field_loop_summary_keys d :
  field_loop summary_keys d
  = match first_text_field d with
    | Some s => Return (Some s)
    | None => Fallthrough
    end.
Proof.
  unfold first_text_field, summary_keys; simpl.
  destruct (d !! "summary_text") as [[]|];
    destruct (d !! "generated_text") as [[]|];
    destruct (d !! "text") as [[]|]; reflexivity.
Qed.

(** C8, as the code has it: a string yields itself; a sequence yields what
    its first element yields as a string or as a keyed structure; a keyed
    structure yields the first field of the preference list that is present
    with a string value; everything else yields absent.  The function is
    total, so it never raises.  A keyed structure with a string under
    ["summary_text"] yields exactly that string. *)
Theorem extract_summary_rules :
  (∀ s, extract_summary_from_response (PStr s) = Some s)
  ∧ (∀ first rest,
       extract_summary_from_response (PList (first :: rest))
       = match first with
         | PStr s => Some s
         | PDict d => first_text_field d
         | _ => None
         end)
  ∧ (∀ d, extract_summary_from_response (PDict d) = first_text_field d)
  ∧ (extract_summary_from_response PNone = None
     ∧ (∀ b, extract_summary_from_response (PBool b) = None)
     ∧ (∀ n, extract_summary_from_response (PInt n) = None)
     ∧ (∀ r, extract_summary_from_response (PFloat r) = None)
     ∧ extract_summary_from_response (PList []) = None)
  ∧ (∀ d s,
       extract_summary_from_response (PDict (<["summary_text" := PStr s]> d))
       = Some s).
Proof.
  repeat split; try reflexivity.
  - intros first rest. unfold extract_summary_from_response.
    destruct first; try reflexivity.
    rewrite field_loop_summary_keys. by destruct (first_text_field _).
  - intros d. unfold extract_summary_from_response.
    rewrite field_loop_summary_keys. by destruct (first_text_field _).
  - intros d s. unfold extract_summary_from_response.
    rewrite field_loop_summary_keys. unfold first_text_field.
    by rewrite lookup_insert_eq.
Qed.

(** C8 as stated does not hold: the first present field is skipped when its
    value is not a string. *)
Lemma extract_summary_first_present_fails :
  let d : gmap string pyval :=
    {[ "summary_text" := PNone; "generated_text" := PStr "hello" ]} in
  first_present_field summary_keys d = Some PNone
  ∧ spec_extract (PDict d) = None
  ∧ extract_summary_from_response (PDict d) = Some "hello".
Proof. repeat split; vm_compute; reflexivity. Qed.

(** ** The Deduplicator *)

Lemma first_occurrence_elem_of x l :
  x ∈ l → ∃ i, first_occurrence x l = Some i ∧ (i < length l)%nat.
Proof.
  induction l as [|y l IH]; [intros Hx; by apply elem_of_nil in Hx|].
  intros Hx. simpl. destruct (decide (x = y)) as [->|Hne].
  - exists 0%nat. split; [done|lia].
  - apply elem_of_cons in Hx as [?|Hx]; [done|].
    destruct (IH Hx) as (i & -> & Hi). exists (S i). split; [done|lia].
Qed.

Lemma first_occurrence_app_l x l l' i :
  first_occurrence x l = Some i → first_occurrence x (l ++ l') = Some i.
Proof.
  revert i. induction l as [|y l IH]; intros i; simpl; [done|].
  destruct (decide (x = y)); [done|].
  destruct (first_occurrence x l) as [k|]; simpl; [|done].
  intros [= <-]. by rewrite (IH k eq_refl).
Qed.

Lemma first_occurrence_fresh x l :
  x ∉ l → first_occurrence x (l ++ [x]) = Some (length l).
Proof.
  induction l as [|y l IH]; simpl; intros Hx.
  - by rewrite decide_True.
  - apply not_elem_of_cons in Hx as [Hne Hx].
    rewrite decide_False; [|done]. by rewrite IH.
Qed.

Lemma dedup_inv_init : dedup_inv [] ([], ∅).
Proof.
  split; simpl.
  - set_solver.
  - constructor.
  - intros s. rewrite elem_of_nil. set_solver.
  - intros i j a b H. by rewrite lookup_nil in H.
Qed.

Lemma dedup_inv_step tasks acc t :
  dedup_inv tasks acc → dedup_inv (tasks ++ [t]) (dedup_step acc t).
Proof.
  destruct acc as [dedup seen]. intros [Hseen Hnd Hel Hord]. simpl in *.
  assert (Hlift : ∀ a, a ∈ dedup →
            ∃ ia, first_occurrence a (PyStr.strip <$> tasks) = Some ia
                  ∧ (ia < length (PyStr.strip <$> tasks))%nat).
  { intros a Ha. apply first_occurrence_elem_of. by apply Hel. }
  assert (Hfmap : PyStr.strip <$> tasks ++ [t]
                  = (PyStr.strip <$> tasks) ++ [PyStr.strip t])
    by (by rewrite fmap_app).
  unfold dedup_step.
  destruct (PyStr.truthy (PyStr.strip t)) eqn:Htruthy; simpl.
  - apply truthy_nonempty in Htruthy.
    case_bool_decide as Hfresh; simpl.
    + assert (Hnotin : PyStr.strip t ∉ dedup) by (by rewrite <- Hseen).
      split; simpl; rewrite ?Hfmap.
      * intros s. rewrite elem_of_union, elem_of_singleton, elem_of_app,
          list_elem_of_singleton, Hseen. done.
      * apply NoDup_app. repeat split; [done| |apply NoDup_singleton].
        intros x Hx ->%list_elem_of_singleton. done.
      * intros s. rewrite !elem_of_app, !list_elem_of_singleton, Hel.
        naive_solver.
      * intros i j a b Hi Hj Hij.
        assert (Hi' : dedup !! i = Some a).
        { apply lookup_lt_Some in Hj. rewrite length_app in Hj. simpl in Hj.
          rewrite lookup_app_l in Hi by lia. done. }
        destruct (Hlift a) as (ia & Hia & Hlen);
          [by eapply list_elem_of_lookup_2|].
        destruct (decide (j < length dedup)%nat) as [Hlt|Hge].
        -- rewrite lookup_app_l in Hj by done.
           destruct (Hord i j a b Hi' Hj Hij) as (ia' & ib & Ha & Hb & Hlt').
           exists ia', ib. eauto using first_occurrence_app_l.
        -- rewrite lookup_app_r in Hj by lia.
           apply list_lookup_singleton_Some in Hj as [_ <-].
           exists ia, (length (PyStr.strip <$> tasks)).
           split; [by apply first_occurrence_app_l|]. split; [|done].
           apply first_occurrence_fresh. intros Hin. apply Hnotin.
           by apply Hel.
    + assert (Hin : PyStr.strip t ∈ dedup).
      { apply Hseen. destruct (decide (PyStr.strip t ∈ seen)); [done|].
        by exfalso. }
      split; simpl; rewrite ?Hfmap; [done|done| |].
      * intros s. rewrite elem_of_app, list_elem_of_singleton, Hel.
        split; [naive_solver|]. intros [Hne [?| ->]]; [done|].
        by apply Hel.
      * intros i j a b Hi Hj Hij.
        destruct (Hord i j a b Hi Hj Hij) as (ia & ib & Ha & Hb & Hlt).
        exists ia, ib. eauto using first_occurrence_app_l.
  - assert (Hempty : PyStr.strip t = "").
    { destruct (PyStr.strip t); [done|discriminate]. }
    split; simpl; rewrite ?Hfmap; [done|done| |].
    + intros s. rewrite elem_of_app, list_elem_of_singleton, Hel.
      rewrite Hempty. naive_solver.
    + intros i j a b Hi Hj Hij.
      destruct (Hord i j a b Hi Hj Hij) as (ia & ib & Ha & Hb & Hlt).
      exists ia, ib. eauto using first_occurrence_app_l.
Qed.

Lemma dedup_inv_foldl tasks :
  dedup_inv tasks (foldl dedup_step ([], ∅) tasks).
Proof.
  induction tasks as [|t tasks IH] using rev_ind; [apply dedup_inv_init|].
  rewrite foldl_snoc. by apply dedup_inv_step.
Qed.

(** C9: the Deduplicator returns unique, non-empty, stripped strings (no
    whitespace at either end); they are exactly the non-blank stripped
    entries, in the order of their first occurrences; the empty list gives
    the empty list.  The function is total: it has no error case. *)
Theorem dedup_tasks_spec (tasks : list string) :
  NoDup (dedup_tasks tasks)
  ∧ (∀ s, s ∈ dedup_tasks tasks →
          s ≠ "" ∧ PyStr.strip s = s
          ∧ no_leading_space s ∧ no_trailing_space s)
  ∧ (∀ s, s ∈ dedup_tasks tasks ↔ s ≠ "" ∧ s ∈ PyStr.strip <$> tasks)
  ∧ (∀ i j a b,
       dedup_tasks tasks !! i = Some a → dedup_tasks tasks !! j = Some b →
       (i < j)%nat →
       ∃ ia ib, first_occurrence a (PyStr.strip <$> tasks) = Some ia
                ∧ first_occurrence b (PyStr.strip <$> tasks) = Some ib
                ∧ (ia < ib)%nat)
  ∧ dedup_tasks [] = [].
Proof.
  destruct (dedup_inv_foldl tasks) as [Hseen Hnd Hel Hord].
  fold (dedup_tasks tasks) in Hnd, Hel, Hord.
  split; [exact Hnd|]. split; [|split; [exact Hel|split; [exact Hord|done]]].
  intros s Hs. apply Hel in Hs as [Hne (t & -> & _)%list_elem_of_fmap].
  split; [done|]. split; [apply strip_idempotent|].
  split; [apply strip_no_leading_space|apply strip_no_trailing_space].
Qed.

(** ** The monad *)

Lemma try_except_exception {A} (body : M A) (x : A) w :
  try_except is_exception body (λ _, ret x) w
  = match body w with
    | (Ok v, w') => (Ok v, w')
    | (Raise _, w') => (Ok x, w')
    end.
Proof. unfold try_except. by destruct (body w) as [[v|e] w']. Qed.

Lemma returns_ret {A} (v : A) w : returns (ret v) w.
Proof. by exists v, w. Qed.

Lemma returns_bind {A B} (m : M A) (k : A → M B) w :
  returns m w → (∀ v w', returns (k v) w') → returns (bind m k) w.
Proof.
  intros (v & w' & Hm) Hk. unfold returns, bind. rewrite Hm. apply Hk.
Qed.

Lemma returns_try_except {A} (body : M A) (x : A) w :
  returns (try_except is_exception body (λ _, ret x)) w.
Proof.
  unfold returns. rewrite try_except_exception.
  destruct (body w) as [[v|e] w']; eauto.
Qed.

(** ** The stages never raise *)

Section Stages.
Variable remote : nat → string → Z → attempt.

Lemma direct_call_returns dedup max_points w :
  returns (direct_call remote dedup max_points) w.
Proof. apply returns_try_except. Qed.

Lemma summarize_chunk_returns dedup i w :
  returns (summarize_chunk remote dedup i) w.
Proof. apply returns_try_except. Qed.

Lemma chunk_loop_returns dedup starts chunk_summaries w :
  returns (chunk_loop remote dedup starts chunk_summaries) w.
Proof.
  revert chunk_summaries w.
  induction starts as [|i starts IH]; intros chunk_summaries w; simpl.
  - apply returns_ret.
  - apply returns_bind; [apply summarize_chunk_returns|].
    intros s w'. apply IH.
Qed.

Lemma chunked_calls_returns dedup w :
  returns (chunked_calls remote dedup) w.
Proof. apply chunk_loop_returns. Qed.

Lemma combine_pass_returns chunk_summaries max_points w :
  returns (combine_pass remote chunk_summaries max_points) w.
Proof. apply returns_try_except. Qed.

Lemma summarize_team_tasks_returns tasks max_points w :
  returns (summarize_team_tasks remote tasks max_points) w.
Proof.
  unfold summarize_team_tasks.
  destruct (dedup_tasks tasks) as [|t dedup]; [apply returns_ret|].
  apply returns_bind; [apply direct_call_returns|].
  intros [points|] w1; [apply returns_ret|].
  apply returns_bind; [apply chunked_calls_returns|].
  intros chunk_summaries w2.
  apply returns_bind; [apply combine_pass_returns|].
  intros [points|] w3; apply returns_ret.
Qed.
End Stages.

(** C2: whatever the remote endpoint does, [summarize_team_tasks] ends
    without raising, for every input list; so do the direct call, each chunk
    call and the combine pass, whose failures are caught inside the stage. *)
Theorem summarize_team_tasks_never_raises
    (remote : nat → string → Z → attempt) :
  (∀ tasks max_points w,
     ∃ summary w',
       summarize_team_tasks remote tasks max_points w = (Ok summary, w'))
  ∧ (∀ dedup max_points w,
       ∃ outcome w', direct_call remote dedup max_points w = (Ok outcome, w'))
  ∧ (∀ dedup i w,
       ∃ chunk_summary w',
         summarize_chunk remote dedup i w = (Ok chunk_summary, w'))
  ∧ (∀ chunk_summaries max_points w,
       ∃ outcome w',
         combine_pass remote chunk_summaries max_points w = (Ok outcome, w')).
Proof.
  repeat split; intros.
  - apply summarize_team_tasks_returns.
  - apply direct_call_returns.
  - apply summarize_chunk_returns.
  - apply combine_pass_returns.
Qed.

(** What a stage does when the client raises in it. *)
Lemma direct_call_degrades remote dedup max_points w e w' :
  (Z.of_nat (length dedup) <=? 6) && (joined_len dedup <? 1200) = true →
  hf_post remote (PyStr.join " . " dedup) 120 3 w = (Raise e, w') →
  direct_call remote dedup max_points w = (Ok Fallthrough, w').
Proof.
  intros Hsmall H. unfold direct_call. rewrite try_except_exception, Hsmall.
  unfold bind. by rewrite H.
Qed.

Lemma direct_call_skipped remote dedup max_points w :
  (Z.of_nat (length dedup) <=? 6) && (joined_len dedup <? 1200) = false →
  direct_call remote dedup max_points w = (Ok Fallthrough, w).
Proof.
  intros Hbig. unfold direct_call. by rewrite try_except_exception, Hbig.
Qed.

Lemma summarize_chunk_on_failure remote dedup i w e w' :
  let chunk := take chunk_size (drop i dedup) in
  hf_post remote (PyStr.join " . " chunk) 120 2 w = (Raise e, w') →
  summarize_chunk remote dedup i w = (Ok (PyStr.join " . " chunk), w').
Proof.
  intros chunk H. unfold summarize_chunk. rewrite try_except_exception.
  unfold bind. fold chunk. by rewrite H.
Qed.

Lemma summarize_chunk_on_no_text remote dedup i w body w' :
  let chunk := take chunk_size (drop i dedup) in
  hf_post remote (PyStr.join " . " chunk) 120 2 w = (Ok body, w') →
  extract_summary_from_response body = None →
  summarize_chunk remote dedup i w
  = (Ok (PyStr.prefix 1000 (PyStr.join " . " chunk)), w').
Proof.
  intros chunk H Hnone. unfold summarize_chunk. rewrite try_except_exception.
  unfold bind. fold chunk. rewrite H. unfold ret. by rewrite Hnone.
Qed.

Lemma combine_pass_degrades remote chunk_summaries max_points w e w' :
  hf_post remote (PyStr.join " " chunk_summaries) 120 2 w = (Raise e, w') →
  combine_pass remote chunk_summaries max_points w = (Ok Fallthrough, w').
Proof.
  intros H. unfold combine_pass. rewrite try_except_exception.
  unfold bind. by rewrite H.
Qed.

(** ** The number of bullets *)

Lemma split_to_bullets_length text max_points :
  0 ≤ max_points → Z.of_nat (length (split_to_bullets text max_points)) ≤ max_points.
Proof.
  intros Hmp. unfold split_to_bullets.
  destruct (negb _); [simpl; lia|]. by apply slice_to_length.
Qed.

Lemma usable_points_bounds summary_text max_points points :
  0 ≤ max_points →
  usable_points summary_text max_points = Return points →
  (1 ≤ length points)%nat ∧ Z.of_nat (length points) ≤ max_points.
Proof.
  intros Hmp. unfold usable_points.
  destruct summary_text as [text|]; [|done].
  destruct (PyStr.truthy text); [|done].
  pose proof (split_to_bullets_length text max_points Hmp) as Hlen.
  destruct (split_to_bullets text max_points) as [|b bs]; [done|].
  intros [= <-]. simpl in *. lia.
Qed.

Lemma direct_call_bounds remote dedup max_points w points w' :
  0 ≤ max_points →
  direct_call remote dedup max_points w = (Ok (Return points), w') →
  (1 ≤ length points)%nat ∧ Z.of_nat (length points) ≤ max_points.
Proof.
  intros Hmp. unfold direct_call. rewrite try_except_exception.
  destruct (_ && _); [|done].
  unfold bind, ret. destruct (hf_post _ _ _ _ _) as [[body|e] w1]; [|done].
  intros [= H _]. by eapply usable_points_bounds.
Qed.

Lemma combine_pass_bounds remote chunk_summaries max_points w points w' :
  0 ≤ max_points →
  combine_pass remote chunk_summaries max_points w = (Ok (Return points), w') →
  (1 ≤ length points)%nat ∧ Z.of_nat (length points) ≤ max_points.
Proof.
  intros Hmp. unfold combine_pass. rewrite try_except_exception.
  unfold bind, ret. destruct (hf_post _ _ _ _ _) as [[body|e] w1]; [|done].
  intros [= H _]. by eapply usable_points_bounds.
Qed.

Lemma dedup_step_length acc t :
  (length acc.1 ≤ length (dedup_step acc t).1 ≤ S (length acc.1))%nat.
Proof.
  destruct acc as [dedup seen]. unfold dedup_step.
  destruct (_ && _); simpl; rewrite ?length_app; simpl; lia.
Qed.

Lemma bulletify_loop_upper max_bullets tasks acc :
  Z.of_nat (length acc.1) < max_bullets →
  Z.of_nat (length (bulletify_loop max_bullets tasks acc)) ≤ max_bullets.
Proof.
  revert acc. induction tasks as [|t tasks IH]; intros acc Hlt; simpl; [lia|].
  pose proof (dedup_step_length acc t) as Hstep.
  destruct (Z.geb_spec (Z.of_nat (length (dedup_step acc t).1)) max_bullets).
  - lia.
  - apply IH. lia.
Qed.

Lemma bulletify_loop_lower max_bullets tasks acc :
  (length acc.1 ≤ length (bulletify_loop max_bullets tasks acc))%nat.
Proof.
  revert acc. induction tasks as [|t tasks IH]; intros acc; simpl; [lia|].
  pose proof (dedup_step_length acc t) as Hstep.
  destruct (_ >=? _); [lia|]. specialize (IH (dedup_step acc t)). lia.
Qed.

Lemma bulletify_tasks_bounds t dedup max_bullets :
  PyStr.strip t ≠ "" → 1 ≤ max_bullets →
  (1 ≤ length (bulletify_tasks (t :: dedup) max_bullets))%nat
  ∧ Z.of_nat (length (bulletify_tasks (t :: dedup) max_bullets)) ≤ max_bullets.
Proof.
  intros Ht Hmp. split.
  - unfold bulletify_tasks. cbn [bulletify_loop].
    assert (Hfirst : dedup_step ([], ∅) t = ([PyStr.strip t], ∅ ∪ {[PyStr.strip t]})).
    { unfold dedup_step. apply truthy_nonempty in Ht. rewrite Ht.
      rewrite bool_decide_true by set_solver. done. }
    rewrite Hfirst. simpl. destruct (_ >=? _); [simpl; lia|].
    etrans; [|apply bulletify_loop_lower]. simpl. lia.
  - apply bulletify_loop_upper. simpl. lia.
Qed.

Lemma dedup_tasks_head tasks t dedup :
  dedup_tasks tasks = t :: dedup → PyStr.strip t ≠ "".
Proof.
  intros H. destruct (dedup_inv_foldl tasks) as [_ _ Hel _].
  fold (dedup_tasks tasks) in Hel. rewrite H in Hel.
  destruct (proj1 (Hel t)) as [Hne (x & -> & _)%list_elem_of_fmap];
    [left|]. by rewrite strip_idempotent.
Qed.

Lemma bullet_block_sentinel :
  bullet_block ["No tasks reported."] = "- No tasks reported.".
Proof. reflexivity. Qed.

(** [summarize_team_tasks] returns the block of [summary_points]. *)
Lemma summarize_team_tasks_block remote tasks max_points w :
  summarize_team_tasks remote tasks max_points w
  = match summary_points remote tasks max_points w with
    | (Ok points, w') => (Ok (bullet_block points), w')
    | (Raise e, w') => (Raise e, w')
    end.
Proof.
  unfold summarize_team_tasks, summary_points.
  destruct (dedup_tasks tasks) as [|t dedup]; [done|].
  unfold bind, ret.
  destruct (direct_call _ _ _ _) as [[[points|]|e] w1]; try done.
  destruct (chunked_calls _ _ _) as [[chunk_summaries|e] w2]; try done.
  by destruct (combine_pass _ _ _ _) as [[[points|]|e] w3].
Qed.

(** C1: for every task list and every [max_points] of at least 1 (5 in the
    report), [summarize_team_tasks] returns the block of a list of bullets
    that has at least one and at most [max_points] elements, whichever
    [return] is reached: the sentinel, the direct call, the combine pass or
    the final fallback. *)
Theorem summarize_team_tasks_bullet_count
    (remote : nat → string → Z → attempt) tasks max_points w :
  1 ≤ max_points →
  ∃ points w',
    summary_points remote tasks max_points w = (Ok points, w')
    ∧ summarize_team_tasks remote tasks max_points w
      = (Ok (bullet_block points), w')
    ∧ (1 ≤ length points)%nat
    ∧ Z.of_nat (length points) ≤ max_points.
Proof.
  intros Hmp.
  enough (∃ points w',
            summary_points remote tasks max_points w = (Ok points, w')
            ∧ (1 ≤ length points)%nat
            ∧ Z.of_nat (length points) ≤ max_points) as (points & w' & H & ?).
  { exists points, w'. rewrite summarize_team_tasks_block, H. done. }
  unfold summary_points.
  destruct (dedup_tasks tasks) as [|t dedup] eqn:Hdedup.
  { exists ["No tasks reported."], w. repeat split; simpl; lia. }
  apply dedup_tasks_head in Hdedup.
  unfold bind at 1.
  destruct (direct_call_returns remote (t :: dedup) max_points w)
    as ([points|] & w1 & Hdirect); rewrite Hdirect.
  { exists points, w1. apply direct_call_bounds in Hdirect; [|lia]. done. }
  unfold bind at 1.
  destruct (chunked_calls_returns remote (t :: dedup) w1)
    as (chunk_summaries & w2 & Hchunks); rewrite Hchunks.
  unfold bind.
  destruct (combine_pass_returns remote chunk_summaries max_points w2)
    as ([points|] & w3 & Hcombine); rewrite Hcombine.
  { exists points, w3. apply combine_pass_bounds in Hcombine; [|lia]. done. }
  exists (bulletify_tasks (t :: dedup) max_points), w3.
  destruct (bulletify_tasks_bounds t dedup max_points Hdedup Hmp). done.
Qed.

(** ** The empty and the blank input *)

(** C3: on the empty list [summarize_team_tasks] returns the sentinel
    ["- No tasks reported."] and leaves the world as it was: nothing is
    posted and nothing is slept. *)
Theorem summarize_team_tasks_empty
    (remote : nat → string → Z → attempt) max_points w :
  summarize_team_tasks remote [] max_points w = (Ok "- No tasks reported.", w).
Proof. reflexivity. Qed.

Lemma dedup_tasks_blank tasks :
  Forall (λ t, PyStr.strip t = "") tasks → dedup_tasks tasks = [].
Proof.
  intros Hblank. destruct (dedup_inv_foldl tasks) as [_ _ Hel _].
  fold (dedup_tasks tasks) in Hel.
  destruct (dedup_tasks tasks) as [|s dedup]; [done|].
  destruct (proj1 (Hel s)) as [Hne (t & -> & Ht)%list_elem_of_fmap]; [left|].
  rewrite Forall_forall in Hblank. by destruct Hne; apply Hblank.
Qed.

(** C10: a non-empty list whose entries are all blank gives the sentinel of
    the empty list, and the world is left as it was. *)
Theorem summarize_team_tasks_all_blank
    (remote : nat → string → Z → attempt) tasks max_points w :
  tasks ≠ [] →
  Forall (λ t, PyStr.strip t = "") tasks →
  summarize_team_tasks remote tasks max_points w
  = (Ok "- No tasks reported.", w)
  ∧ summarize_team_tasks remote tasks max_points w
    = summarize_team_tasks remote [] max_points w.
Proof.
  intros _ Hblank. unfold summarize_team_tasks.
  by rewrite (dedup_tasks_blank tasks Hblank).
Qed.

Lemma summarize_team_tasks_all_blank_witness :
  summarize_team_tasks remote_down [""; "   "; String "009" (String "010" "")]
    5 quiet
  = (Ok "- No tasks reported.", quiet).
Proof.
  refine (proj1 (summarize_team_tasks_all_blank remote_down
                   [""; "   "; String "009" (String "010" "")] 5 quiet _ _)).
  - discriminate.
  - repeat constructor.
Defined.

(** ** The remote summarizer client *)

(** C4, as the code has it: with [max_retries = 3], when the first two
    requests fail, [hf_post] sleeps 2 and then 4 and makes a third request;
    it returns the body of the third request when that one succeeds, and
    raises the third request's own failure to its caller when that one fails
    too. *)
Theorem hf_post_three_attempts
    (remote : nat → string → Z → attempt) text timeout w e1 e2 :
  remote (length (posted w)) text timeout = Failed (RequestException e1) →
  remote (S (length (posted w))) text timeout
  = Failed (RequestException e2) →
  let w' := World (posted w ++ [text; text; text]) (slept w ++ [2; 4]) in
  (∀ body,
     remote (S (S (length (posted w)))) text timeout = Responded body →
     hf_post remote text timeout 3 w = (Ok body, w'))
  ∧ (∀ e3,
       remote (S (S (length (posted w)))) text timeout
       = Failed (RequestException e3) →
       hf_post remote text timeout 3 w = (Raise (RequestException e3), w')).
Proof.
  intros H1 H2 w'.
  assert (Hrun : hf_post remote text timeout 3 w
                 = (match remote (S (S (length (posted w)))) text timeout with
                    | Responded body => Ok body
                    | Failed e => Raise e
                    end, w')).
  { unfold hf_post. change (py_range 1 (3 + 1)) with [1; 2; 3].
    unfold hf_post_loop, try_except, requests_post, bind, sleep, raise.
    simpl. rewrite H1. simpl. rewrite length_app. simpl.
    replace (length (posted w) + 1)%nat with (S (length (posted w))) by lia.
    rewrite H2. simpl. rewrite !length_app. simpl.
    replace (length (posted w) + 1 + 1)%nat
      with (S (S (length (posted w)))) by lia.
    unfold w'. rewrite <- !app_assoc. simpl.
    destruct (remote (S (S (length (posted w)))) text timeout)
      as [body|[e3|m|e3]]; reflexivity. }
  split.
  - intros body H3. by rewrite Hrun, H3.
  - intros e3 H3. by rewrite Hrun, H3.
Qed.

Lemma hf_post_three_attempts_witness :
  hf_post (remote_third_time (PStr "ok")) "text" 120 3 quiet
  = (Ok (PStr "ok"), World ["text"; "text"; "text"] [2; 4])
  ∧ hf_post remote_down "text" 120 3 quiet
    = (Raise (RequestException "503 Server Error"),
       World ["text"; "text"; "text"] [2; 4]).
Proof.
  split.
  - exact (proj1 (hf_post_three_attempts (remote_third_time (PStr "ok"))
                    "text" 120 quiet "timed out" "timed out" eq_refl eq_refl)
             (PStr "ok") eq_refl).
  - exact (proj2 (hf_post_three_attempts remote_down
                    "text" 120 quiet "503 Server Error" "503 Server Error"
                    eq_refl eq_refl)
             "503 Server Error" eq_refl).
Defined.

(** C4 as stated does not hold in its last part: when all three attempts
    fail, no exhaustion failure is raised.  What reaches the caller is the
    [RequestException] of the third attempt, raised again; the error that the
    code has for exhausted retries, the [RuntimeError] after the loop, is not
    raised. *)
Lemma hf_post_three_failures_not_exhaustion :
  (hf_post remote_failing "text" 120 3 quiet).1
  = Raise (RequestException "503 Server Error")
  ∧ (hf_post remote_failing "text" 120 3 quiet).1
    ≠ Raise (RuntimeError "HF post retries exhausted").
Proof. split; [reflexivity|]. vm_compute. discriminate. Qed.

(** With [max_retries] below 1 there is no attempt at all, and [hf_post]
    raises its [RuntimeError]. *)
Example hf_post_no_attempt remote text timeout w :
  hf_post remote text timeout 0 w
  = (Raise (RuntimeError "HF post retries exhausted"), w).
Proof. reflexivity. Qed.

(** ** The chunk stage on failure *)

(** C6 on a chunk of one entry of 1001 characters whose call fails: the
    string put in [chunk_summaries] is the whole entry, 1001 characters long,
    and this is the text that the combine pass posts (the sixth request of
    the run). *)
Theorem summarize_chunk_failure_not_truncated :
  summarize_chunk remote_down [long_entry] 0 quiet
  = (Ok long_entry, World [long_entry; long_entry] [2])
  ∧ PyStr.len long_entry = 1001
  ∧ PyStr.prefix 1000 long_entry ≠ long_entry
  ∧ posted (summarize_team_tasks remote_down [long_entry] 5 quiet).2 !! 5%nat
    = Some long_entry.
Proof.
  repeat split; try (vm_compute; reflexivity).
  vm_compute. discriminate.
Qed.

(** ** The number of bullets at [max_points = 5] *)

Lemma summarize_team_tasks_bullet_count_witness :
  ∃ points w',
    summary_points remote_down ["a"; " b "; "a"; ""; "c"] 5 quiet
    = (Ok points, w')
    ∧ summarize_team_tasks remote_down ["a"; " b "; "a"; ""; "c"] 5 quiet
      = (Ok (bullet_block points), w')
    ∧ (1 ≤ length points)%nat
    ∧ Z.of_nat (length points) ≤ 5.
Proof.
  apply (summarize_team_tasks_bullet_count remote_down
           ["a"; " b "; "a"; ""; "c"] 5 quiet).
  lia.
Defined.

Example summarize_team_tasks_fallback :
  summarize_team_tasks remote_down
    ["t1"; "t2"; "t3"; "t4"; "t5"; "t6"; "t7"] 5 quiet
  = (Ok (bullet_block ["t1"; "t2"; "t3"; "t4"; "t5"]),
     World (replicate 4 "t1 . t2 . t3 . t4 . t5 . t6 . t7") [2; 2]).
Proof. vm_compute. reflexivity. Qed.

(** With [max_points = 0] the slices of the splitter are empty, and the
    final fallback still keeps the one entry it appends before its test. *)
Example summarize_team_tasks_zero_points :
  summarize_team_tasks remote_down ["a"; "b"] 0 quiet
  = (Ok "- a", World (replicate 7 "a . b") [2; 4; 2; 2]).
Proof. vm_compute. reflexivity. Qed.

(** Fifteen distinct short entries and an endpoint that is down: the direct
    call is skipped, two chunks (of 10 and 5 entries) are posted twice each,
    the combine pass posts their raw texts joined by a space, and the result
    is the first five entries verbatim. *)
Example summarize_team_tasks_fifteen :
  let tasks :=
    ["t01"; "t02"; "t03"; "t04"; "t05"; "t06"; "t07"; "t08"; "t09"; "t10";
     "t11"; "t12"; "t13"; "t14"; "t15"] in
  let chunk1 := PyStr.join " . " (take 10 tasks) in
  let chunk2 := PyStr.join " . " (drop 10 tasks) in
  summarize_team_tasks remote_down tasks 5 quiet
  = (Ok (bullet_block (take 5 tasks)),
     World [chunk1; chunk1; chunk2; chunk2;
            chunk1 +:+ " " +:+ chunk2; chunk1 +:+ " " +:+ chunk2]
       [2; 2; 2]).
Proof. vm_compute. reflexivity. Qed.

(** * Further properties *)

(** ** The retry loop of the client *)

Lemma fmap_seq_shift {A} (f : nat → A) start len :
  f <$> seq (S start) len = (λ i, f (S i)) <$> seq start len.
Proof. by rewrite <- fmap_S_seq, <- list_fmap_compose. Qed.

(** The loop over the attempts [a], [a + 1], ..., [max_retries]: some attempt
    [k] is the last one; the attempts before it were retried, and it is
    either the attempt number [max_retries] or one that is not retried. *)
Lemma hf_post_loop_run remote text timeout max_retries m a w :
  (1 ≤ m)%nat → max_retries = a + Z.of_nat m - 1 →
  ∃ k, (1 ≤ k ≤ m)%nat
    ∧ (∀ j, (j < k - 1)%nat →
         retryable (remote (length (posted w) + j)%nat text timeout) = true)
    ∧ (k = m
       ∨ retryable (remote (length (posted w) + (k - 1))%nat text timeout)
         = false)
    ∧ hf_post_loop remote ((λ i, a + Z.of_nat i) <$> seq 0 m)
        text timeout max_retries w
      = (attempt_result
           (remote (length (posted w) + (k - 1))%nat text timeout),
         World (posted w ++ replicate k text)
           (slept w ++ ((λ i, backoff ^ (a + Z.of_nat i)) <$> seq 0 (k - 1)))).
Proof.
  revert a w. induction m as [|m IH]; intros a w Hm Hmax; [lia|].
  cbn [seq fmap list_fmap]. rewrite fmap_seq_shift.
  cbn [hf_post_loop]. unfold try_except, requests_post.
  replace (a + Z.of_nat 0) with a by lia.
  destruct (remote (length (posted w)) text timeout) as [body|e] eqn:Hfirst.
  { exists 1%nat. rewrite Nat.add_0_r, Hfirst. simpl.
    rewrite app_nil_r. repeat split; [lia|lia|intros; lia|by right]. }
  destruct (is_request_exception e) eqn:Hreq; cycle 1.
  { exists 1%nat. rewrite Nat.add_0_r, Hfirst. simpl.
    rewrite app_nil_r. repeat split; [lia|lia|intros; lia|].
    right. by destruct e. }
  destruct (Z.eqb_spec a max_retries) as [Hlast|Hmore].
  { exists 1%nat. rewrite Nat.add_0_r, Hfirst. simpl.
    rewrite app_nil_r. repeat split; [lia|lia|intros; lia|]. left. lia. }
  unfold bind, sleep. cbn [posted slept].
  set (w1 := World (posted w ++ [text]) (slept w ++ [backoff ^ a])).
  destruct (IH (a + 1) w1) as (k & Hk & Hbefore & Hlast & Hrun); [lia|lia|].
  assert (Hlen : length (posted w1) = S (length (posted w)))
    by (simpl; rewrite length_app; simpl; lia).
  rewrite Hlen in Hbefore, Hlast, Hrun.
  exists (S k). split; [lia|]. split; [|split].
  - intros j Hj. destruct j as [|j].
    + rewrite Nat.add_0_r, Hfirst. by destruct e.
    + replace (length (posted w) + S j)%nat
        with (S (length (posted w)) + j)%nat by lia.
      apply Hbefore. lia.
  - replace (length (posted w) + (S k - 1))%nat
      with (S (length (posted w)) + (k - 1))%nat by lia.
    destruct Hlast as [->|Hlast]; [by left|by right].
  - replace (length (posted w) + (S k - 1))%nat
      with (S (length (posted w)) + (k - 1))%nat by lia.
    erewrite list_fmap_ext; [rewrite Hrun|intros; f_equal; lia].
    f_equal. subst w1. cbn [posted slept].
    rewrite <- !app_assoc. f_equal.
    replace (S k - 1)%nat with (S (k - 1)) by lia.
    cbn [seq fmap list_fmap]. rewrite fmap_seq_shift.
    replace (a + Z.of_nat 0) with a by lia. simpl. do 2 f_equal.
    apply list_fmap_ext. intros _ i _. f_equal. lia.
Qed.

Lemma backoff_waits_from_one j :
  (λ i, backoff ^ (1 + Z.of_nat i)) <$> seq 0 j = backoff_waits j.
Proof.
  unfold backoff_waits. rewrite fmap_seq_shift.
  apply list_fmap_ext. intros _ i _. f_equal. lia.
Qed.

(** [hf_post] with at least one attempt allowed. *)
Lemma hf_post_run remote text timeout max_retries w :
  1 ≤ max_retries →
  ∃ k, (1 ≤ k)%nat ∧ Z.of_nat k ≤ max_retries
    ∧ (∀ j, (j < k - 1)%nat →
         retryable (remote (length (posted w) + j)%nat text timeout) = true)
    ∧ (Z.of_nat k = max_retries
       ∨ retryable (remote (length (posted w) + (k - 1))%nat text timeout)
         = false)
    ∧ hf_post remote text timeout max_retries w
      = (attempt_result
           (remote (length (posted w) + (k - 1))%nat text timeout),
         World (posted w ++ replicate k text)
           (slept w ++ backoff_waits (k - 1))).
Proof.
  intros Hmax.
  destruct (hf_post_loop_run remote text timeout max_retries
              (Z.to_nat max_retries) 1 w)
    as (k & Hk & Hbefore & Hlast & Hrun); [lia|lia|].
  exists k. split; [lia|]. split; [lia|]. split; [done|]. split.
  - destruct Hlast as [->|Hlast]; [left; lia|by right].
  - unfold hf_post, py_range.
    replace (max_retries + 1 - 1) with max_retries by lia.
    by rewrite Hrun, backoff_waits_from_one.
Qed.

Lemma sum_Z_backoff_waits j :
  sum_Z (backoff_waits j) = 2 ^ (Z.of_nat j + 1) - 2.
Proof.
  unfold backoff_waits, sum_Z.
  induction j as [|j IH]; [done|].
  rewrite seq_S, fmap_app, foldr_app. simpl.
  assert (Hgen : ∀ (l : list Z) x, foldr Z.add x l = foldr Z.add 0 l + x).
  { induction l as [|y l IHl]; intros x; simpl; [lia|]. rewrite IHl. lia. }
  rewrite Hgen, IH. unfold backoff.
  replace (Z.of_nat (S j) + 1) with (Z.succ (Z.of_nat j + 1)) by lia.
  rewrite Z.pow_succ_r by lia.
  replace (Z.of_nat (1 + j)) with (Z.of_nat j + 1) by lia. lia.
Qed.

(** X1: the attempt that decides.  If the first [k - 1] requests fail with a
    [RequestException] and the request [k] either is the last one allowed or
    does not fail that way, then [hf_post] ends with what request [k] gives
    (its body, or its exception raised), after [k] posts of the same text and
    sleeps of 2, 4, ..., [2 ** (k - 1)]. *)
Theorem hf_post_decisive_attempt
    (remote : nat → string → Z → attempt) text timeout max_retries w k :
  (1 ≤ k)%nat → Z.of_nat k ≤ max_retries →
  (∀ j, (j < k - 1)%nat →
     retryable (remote (length (posted w) + j)%nat text timeout) = true) →
  (Z.of_nat k = max_retries
   ∨ retryable (remote (length (posted w) + (k - 1))%nat text timeout)
     = false) →
  hf_post remote text timeout max_retries w
  = (attempt_result (remote (length (posted w) + (k - 1))%nat text timeout),
     World (posted w ++ replicate k text)
       (slept w ++ backoff_waits (k - 1))).
Proof.
  intros Hk Hle Hbefore Hlast.
  destruct (hf_post_run remote text timeout max_retries w)
    as (k' & Hk' & Hle' & Hbefore' & Hlast' & Hrun); [lia|].
  enough (k' = k) by (by subst).
  destruct (Nat.lt_trichotomy k' k) as [Hlt|[->|Hgt]]; [|done|].
  - destruct Hlast' as [?|Hno]; [lia|].
    rewrite Hbefore in Hno by lia. done.
  - destruct Hlast as [?|Hno]; [lia|].
    rewrite Hbefore' in Hno by lia. done.
Qed.

Lemma hf_post_decisive_attempt_witness :
  hf_post (remote_third_time (PStr "ok")) "text" 120 5 quiet
  = (Ok (PStr "ok"), World ["text"; "text"; "text"] [2; 4]).
Proof.
  refine (hf_post_decisive_attempt (remote_third_time (PStr "ok"))
            "text" 120 5 quiet 3 _ _ _ _).
  - lia.
  - lia.
  - intros [|[|j]] Hj; [reflexivity|reflexivity|simpl in Hj; lia].
  - right. reflexivity.
Defined.

(** X2: what one call costs.  Whatever the endpoint does, [hf_post] posts
    the same text [k] times with [k] at most [max_retries] (and at least 1
    when [max_retries] is at least 1), sleeps 2, 4, ..., [2 ** (k - 1)]
    between the posts, and so sleeps less than [2 ** max_retries] in all. *)
Theorem hf_post_budget
    (remote : nat → string → Z → attempt) text timeout max_retries w :
  ∃ k, Z.of_nat k ≤ Z.max 0 max_retries
    ∧ (1 ≤ max_retries → (1 ≤ k)%nat)
    ∧ (hf_post remote text timeout max_retries w).2
      = World (posted w ++ replicate k text)
          (slept w ++ backoff_waits (k - 1))
    ∧ sum_Z (backoff_waits (k - 1)) < 2 ^ Z.max 0 max_retries.
Proof.
  destruct (Z.le_gt_cases 1 max_retries) as [Hmax|Hmax].
  - destruct (hf_post_run remote text timeout max_retries w Hmax)
      as (k & Hk & Hle & _ & _ & Hrun).
    exists k. rewrite Hrun. repeat split; [lia|done|].
    rewrite sum_Z_backoff_waits.
    replace (Z.of_nat (k - 1) + 1) with (Z.of_nat k) by lia.
    assert (2 ^ Z.of_nat k ≤ 2 ^ Z.max 0 max_retries)
      by (apply Z.pow_le_mono_r; lia).
    lia.
  - exists 0%nat. unfold hf_post, py_range.
    replace (Z.to_nat (max_retries + 1 - 1)) with 0%nat by lia.
    simpl. destruct w. rewrite !app_nil_r.
    repeat split; [lia|lia|]. apply Z.pow_pos_nonneg; lia.
Qed.

(** X3: no attempt allowed.  With [max_retries] below 1 the loop body never
    runs: nothing is posted, nothing is slept, and the [RuntimeError] after
    the loop is raised. *)
Theorem hf_post_no_attempts
    (remote : nat → string → Z → attempt) text timeout max_retries w :
  max_retries ≤ 0 →
  hf_post remote text timeout max_retries w
  = (Raise (RuntimeError "HF post retries exhausted"), w).
Proof.
  intros Hmax. unfold hf_post, py_range.
  by replace (Z.to_nat (max_retries + 1 - 1)) with 0%nat by lia.
Qed.

Lemma hf_post_no_attempts_witness :
  hf_post remote_down "text" 120 (-2) quiet
  = (Raise (RuntimeError "HF post retries exhausted"), quiet).
Proof. apply hf_post_no_attempts. lia. Defined.

(** X4: the [RuntimeError] is raised in no other case.  With at least one
    attempt allowed, [hf_post] ends with what one of the requests gave. *)
Theorem hf_post_result_of_a_request
    (remote : nat → string → Z → attempt) text timeout max_retries w :
  1 ≤ max_retries →
  ∃ n, (length (posted w) ≤ n < length (posted w) + Z.to_nat max_retries)%nat
    ∧ (hf_post remote text timeout max_retries w).1
      = attempt_result (remote n text timeout).
Proof.
  intros Hmax.
  destruct (hf_post_run remote text timeout max_retries w Hmax)
    as (k & Hk & Hle & _ & _ & Hrun).
  exists (length (posted w) + (k - 1))%nat. rewrite Hrun. split; [lia|done].
Qed.

Lemma hf_post_result_of_a_request_witness :
  ∃ n, (0 ≤ n < 0 + 3)%nat
    ∧ (hf_post remote_down "text" 120 3 quiet).1
      = attempt_result (remote_down n "text" 120).
Proof.
  apply (hf_post_result_of_a_request remote_down "text" 120 3 quiet). lia.
Defined.

(** ** More on the Deduplicator and the raw-entry fallback *)

Lemma foldl_dedup_step_prefix l acc :
  ∃ more, (foldl dedup_step acc l).1 = acc.1 ++ more.
Proof.
  revert acc. induction l as [|t l IH]; intros acc; simpl.
  - exists []. by rewrite app_nil_r.
  - destruct (IH (dedup_step acc t)) as (more & ->).
    destruct acc as [dedup seen]. unfold dedup_step.
    destruct (_ && _); simpl; [|by eauto].
    exists (PyStr.strip t :: more). by rewrite <- app_assoc.
Qed.

(** Entries that are new, non-empty and already stripped are all kept. *)
Lemma foldl_dedup_step_fresh l dedup seen :
  NoDup l →
  (∀ x, x ∈ l → x ≠ "" ∧ PyStr.strip x = x ∧ x ∉ seen) →
  (foldl dedup_step (dedup, seen) l).1 = dedup ++ l.
Proof.
  revert dedup seen.
  induction l as [|t l IH]; intros dedup seen Hnd Hl; cbn [foldl].
  - simpl. by rewrite app_nil_r.
  - apply NoDup_cons in Hnd as [Ht Hnd].
    destruct (Hl t) as (Hne & Hfix & Hfresh); [left|].
    assert (Hstep : dedup_step (dedup, seen) t
                    = (dedup ++ [t], seen ∪ {[t]})).
    { unfold dedup_step. rewrite Hfix.
      apply truthy_nonempty in Hne. rewrite Hne.
      by rewrite bool_decide_true by done. }
    rewrite Hstep.
    rewrite IH; [by rewrite <- app_assoc|done|].
    intros x Hx. destruct (Hl x) as (? & ? & ?); [by right|].
    repeat split; [done..|].
    rewrite elem_of_union, elem_of_singleton. intros [?| ->]; done.
Qed.

(** X5: the Deduplicator is idempotent: its output is left as it is by a
    second pass. *)
Theorem dedup_tasks_idempotent (tasks : list string) :
  dedup_tasks (dedup_tasks tasks) = dedup_tasks tasks.
Proof.
  destruct (dedup_inv_foldl tasks) as [_ Hnd Hel _].
  fold (dedup_tasks tasks) in Hnd, Hel.
  unfold dedup_tasks at 1. rewrite foldl_dedup_step_fresh; [done|done|].
  intros x Hx. apply Hel in Hx as [Hne (t & -> & _)%list_elem_of_fmap].
  repeat split; [done|apply strip_idempotent|set_solver].
Qed.

Lemma dedup_step_ignored tasks t :
  PyStr.strip t = "" ∨ PyStr.strip t ∈ PyStr.strip <$> tasks →
  dedup_step (foldl dedup_step ([], ∅) tasks) t
  = foldl dedup_step ([], ∅) tasks.
Proof.
  intros Ht. destruct (dedup_inv_foldl tasks) as [Hseen _ Hel _].
  destruct (foldl dedup_step ([], ∅) tasks) as [dedup seen]. simpl in *.
  unfold dedup_step.
  destruct (PyStr.truthy (PyStr.strip t)) eqn:Htruthy; [|done].
  apply truthy_nonempty in Htruthy. destruct Ht as [?|Ht]; [done|].
  rewrite bool_decide_false; [done|].
  intros Hnot. apply Hnot, Hseen, Hel. done.
Qed.

(** X6: an entry that is blank, or that repeats (after stripping) an entry
    before it, changes neither the deduplicated list nor anything that
    [summarize_team_tasks] does. *)
Theorem summarize_team_tasks_ignores_repeats
    (remote : nat → string → Z → attempt) before t after max_points w :
  PyStr.strip t = "" ∨ PyStr.strip t ∈ PyStr.strip <$> before →
  dedup_tasks (before ++ t :: after) = dedup_tasks (before ++ after)
  ∧ summarize_team_tasks remote (before ++ t :: after) max_points w
    = summarize_team_tasks remote (before ++ after) max_points w.
Proof.
  intros Ht.
  assert (Hdedup : dedup_tasks (before ++ t :: after)
                   = dedup_tasks (before ++ after)).
  { unfold dedup_tasks. rewrite !foldl_app. simpl.
    by rewrite dedup_step_ignored. }
  split; [done|]. unfold summarize_team_tasks. by rewrite Hdedup.
Qed.

Lemma summarize_team_tasks_ignores_repeats_witness :
  dedup_tasks (["a"; "b"] ++ " a " :: ["c"]) = dedup_tasks (["a"; "b"] ++ ["c"])
  ∧ summarize_team_tasks remote_down (["a"; "b"] ++ " a " :: ["c"]) 5 quiet
    = summarize_team_tasks remote_down (["a"; "b"] ++ ["c"]) 5 quiet.
Proof.
  apply (summarize_team_tasks_ignores_repeats remote_down
           ["a"; "b"] " a " ["c"] 5 quiet).
  right. vm_compute. left.
Defined.

Lemma bulletify_loop_take max_bullets l acc :
  Z.of_nat (length acc.1) < max_bullets →
  bulletify_loop max_bullets l acc
  = take (Z.to_nat max_bullets) (foldl dedup_step acc l).1.
Proof.
  revert acc. induction l as [|t l IH]; intros acc Hlt; simpl.
  - rewrite take_ge; [done|lia].
  - pose proof (dedup_step_length acc t) as Hstep.
    destruct (Z.geb_spec (Z.of_nat (length (dedup_step acc t).1)) max_bullets)
      as [Hfull|Hroom].
    + destruct (foldl_dedup_step_prefix l (dedup_step acc t)) as (more & ->).
      rewrite take_app_le by lia. rewrite take_ge; [done|lia].
    + apply IH. lia.
Qed.

(** X7: for [max_bullets] of at least 1, [bulletify_tasks] returns the first
    [max_bullets] entries of the deduplicated list (all of them when there
    are fewer). *)
Theorem bulletify_tasks_take (tasks : list string) (max_bullets : Z) :
  1 ≤ max_bullets →
  bulletify_tasks tasks max_bullets
  = take (Z.to_nat max_bullets) (dedup_tasks tasks).
Proof.
  intros Hmax. unfold bulletify_tasks, dedup_tasks.
  apply bulletify_loop_take. simpl. lia.
Qed.

Lemma bulletify_tasks_take_witness :
  bulletify_tasks ["a"; ""; "b"; "a"; "c"; "d"] 3
  = take 3 (dedup_tasks ["a"; ""; "b"; "a"; "c"; "d"]).
Proof. apply (bulletify_tasks_take _ 3). lia. Defined.

(** X8: for [max_bullets] below 1 the test [len(dedup) >= max_bullets] holds
    right after the first entry, so the loop stops there: the result is what
    the first entry alone gives, one bullet when it is not blank. *)
Theorem bulletify_tasks_nonpositive (t : string) (rest : list string)
    (max_bullets : Z) :
  max_bullets ≤ 0 →
  bulletify_tasks (t :: rest) max_bullets = dedup_tasks [t]
  ∧ (PyStr.strip t ≠ "" →
     bulletify_tasks (t :: rest) max_bullets = [PyStr.strip t]).
Proof.
  intros Hmax. unfold bulletify_tasks, dedup_tasks.
  cbn [bulletify_loop foldl].
  destruct (Z.geb_spec (Z.of_nat (length (dedup_step ([], ∅) t).1)) max_bullets);
    [|lia].
  split; [done|]. intros Hne%truthy_nonempty.
  unfold dedup_step. rewrite Hne. by rewrite bool_decide_true by set_solver.
Qed.

Lemma bulletify_tasks_nonpositive_witness :
  bulletify_tasks (" a " :: ["b"; "c"]) 0 = dedup_tasks [" a "].
Proof.
  exact (proj1 (bulletify_tasks_nonpositive " a " ["b"; "c"] 0 ltac:(lia))).
Defined.

(** ** The chunks *)

Lemma concat_chunks (step count : nat) (l : list string) :
  (length l ≤ count * step)%nat →
  concat ((λ k, take step (drop (k * step) l)) <$> seq 0 count) = l.
Proof.
  revert l. induction count as [|count IH]; intros l Hlen.
  - simpl in *. destruct l; [done|simpl in Hlen; lia].
  - cbn [seq fmap list_fmap concat]. rewrite fmap_seq_shift.
    transitivity (take step l ++ drop step l); [|apply take_drop].
    f_equal.
    transitivity
      (concat ((λ k, take step (drop (k * step) (drop step l)))
                 <$> seq 0 count));
      [|apply IH; rewrite length_drop; lia].
    f_equal. apply list_fmap_ext. intros _ k _.
    rewrite drop_drop. f_equal; lia.
Qed.

Lemma chunk_count_bounds (n : nat) :
  (n ≤ (n + 9) / 10 * 10)%nat
  ∧ ∀ k, (k < (n + 9) / 10 → k * 10 < n)%nat.
Proof.
  pose proof (Nat.div_mod_eq (n + 9) 10) as Hdiv.
  assert (Hmod : ((n + 9) mod 10 < 10)%nat)
    by (apply Nat.mod_upper_bound; lia).
  split; [lia|]. intros k Hk. lia.
Qed.

Lemma py_range_step_chunks (n : nat) :
  py_range_step n chunk_size = (λ k, k * 10)%nat <$> seq 0 ((n + 9) / 10)%nat.
Proof. unfold py_range_step, chunk_size. do 3 f_equal. lia. Qed.

(** X9: the chunks are the deduplicated list cut in order: put end to end
    they give the list back, each has between 1 and 10 entries, and there are
    [ceil(len / 10)] of them. *)
Theorem chunks_of_partition (dedup : list string) :
  concat (chunks_of dedup) = dedup
  ∧ Forall (λ chunk, (1 ≤ length chunk ≤ 10)%nat) (chunks_of dedup)
  ∧ length (chunks_of dedup) = ((length dedup + 9) / 10)%nat.
Proof.
  unfold chunks_of. rewrite py_range_step_chunks.
  destruct (chunk_count_bounds (length dedup)) as [Hcover Htight].
  split; [|split].
  - rewrite <- list_fmap_compose. by apply concat_chunks.
  - apply Forall_fmap, Forall_fmap, Forall_forall. intros k Hk. simpl.
    apply elem_of_seq in Hk. unfold chunk_size.
    rewrite length_take, length_drop.
    assert (k * 10 < length dedup)%nat by (apply Htight; lia). lia.
  - by rewrite !length_fmap, length_seq.
Qed.

Lemma app_nonempty_l (s t : string) : s ≠ "" → s +:+ t ≠ "".
Proof. by destruct s. Qed.

Lemma join_nonempty sep x l : x ≠ "" → PyStr.join sep (x :: l) ≠ "".
Proof.
  intros Hx. unfold PyStr.join. simpl. destruct l; [done|].
  by apply app_nonempty_l.
Qed.

Lemma prefix_nonempty n s : s ≠ "" → PyStr.prefix (S n) s ≠ "".
Proof. by destruct s. Qed.

Lemma summary_or_nonempty chunk_summary other :
  other ≠ "" → summary_or chunk_summary other ≠ "".
Proof.
  intros Hother. unfold summary_or.
  destruct chunk_summary as [s|]; [|done].
  destruct (PyStr.truthy s) eqn:Hs; [|done]. by apply truthy_nonempty.
Qed.

Lemma summarize_chunk_nonempty remote dedup i w :
  PyStr.join " . " (take chunk_size (drop i dedup)) ≠ "" →
  ∃ s w', summarize_chunk remote dedup i w = (Ok s, w') ∧ s ≠ "".
Proof.
  intros Htext. unfold summarize_chunk. rewrite try_except_exception.
  unfold bind, ret. destruct (hf_post _ _ _ _ _) as [[body|e] w1].
  - eexists _, _. split; [done|].
    by apply summary_or_nonempty, (prefix_nonempty 999).
  - eexists _, _. by split.
Qed.

Lemma chunk_loop_summaries remote dedup starts acc w :
  (∀ i, i ∈ starts →
        PyStr.join " . " (take chunk_size (drop i dedup)) ≠ "") →
  ∃ new w',
    chunk_loop remote dedup starts acc w = (Ok (acc ++ new), w')
    ∧ length new = length starts ∧ Forall (λ s, s ≠ "") new.
Proof.
  revert acc w. induction starts as [|i starts IH]; intros acc w Hne.
  - exists [], w. simpl. by rewrite app_nil_r.
  - destruct (summarize_chunk_nonempty remote dedup i w) as (s & w1 & Hs & Hnes);
      [apply Hne; left|].
    destruct (IH (acc ++ [s]) w1) as (new & w' & Hrun & Hlen & Hall).
    { intros j Hj. apply Hne. by right. }
    exists (s :: new), w'. cbn [chunk_loop]. unfold bind at 1. rewrite Hs, Hrun.
    rewrite <- app_assoc. simpl. repeat split; [by rewrite Hlen|].
    by constructor.
Qed.

Lemma chunk_text_nonempty tasks i :
  i ∈ py_range_step (length (dedup_tasks tasks)) chunk_size →
  PyStr.join " . " (take chunk_size (drop i (dedup_tasks tasks))) ≠ "".
Proof.
  rewrite py_range_step_chunks.
  intros (k & -> & Hk%elem_of_seq)%list_elem_of_fmap.
  destruct (chunk_count_bounds (length (dedup_tasks tasks))) as [_ Htight].
  assert (Hin : (k * 10 < length (dedup_tasks tasks))%nat)
    by (apply Htight; lia).
  destruct (lookup_lt_is_Some_2 _ _ Hin) as [x Hx].
  rewrite (drop_S _ x) by done. unfold chunk_size. cbn [take].
  apply join_nonempty.
  destruct (dedup_inv_foldl tasks) as [_ _ Hel _].
  fold (dedup_tasks tasks) in Hel.
  apply list_elem_of_lookup_2, Hel in Hx. by destruct Hx.
Qed.

(** X10: the chunk stage always gives one summary per chunk, and none of
    them is empty: each is a non-empty extracted text or the raw text of a
    non-empty chunk. *)
Theorem chunked_calls_summaries
    (remote : nat → string → Z → attempt) tasks w :
  ∃ summaries w',
    chunked_calls remote (dedup_tasks tasks) w = (Ok summaries, w')
    ∧ length summaries = length (chunks_of (dedup_tasks tasks))
    ∧ Forall (λ s, s ≠ "") summaries.
Proof.
  destruct (chunk_loop_summaries remote (dedup_tasks tasks)
              (py_range_step (length (dedup_tasks tasks)) chunk_size) [] w)
    as (new & w' & Hrun & Hlen & Hall).
  { intros i Hi. by apply chunk_text_nonempty. }
  exists new, w'. unfold chunked_calls, chunks_of.
  rewrite length_fmap. done.
Qed.

(** ** When the endpoint is down *)

Lemma hf_post_fails remote text timeout max_retries w :
  (∀ n text timeout, ∃ e, remote n text timeout = Failed e) →
  ∃ e w', hf_post remote text timeout max_retries w = (Raise e, w').
Proof.
  intros Hdown. destruct (Z.le_gt_cases 1 max_retries) as [Hmax|Hmax].
  - destruct (hf_post_run remote text timeout max_retries w Hmax)
      as (k & _ & _ & _ & _ & ->).
    destruct (Hdown (length (posted w) + (k - 1))%nat text timeout) as [e ->].
    by eexists _, _.
  - eexists _, _. unfold hf_post, py_range.
    by replace (Z.to_nat (max_retries + 1 - 1)) with 0%nat by lia.
Qed.

(** The fallback on a deduplicated list. *)
Lemma bulletify_dedup_tasks tasks max_bullets :
  1 ≤ max_bullets →
  bulletify_tasks (dedup_tasks tasks) max_bullets
  = take (Z.to_nat max_bullets) (dedup_tasks tasks).
Proof.
  intros Hmax. unfold bulletify_tasks.
  rewrite bulletify_loop_take by (simpl; lia). f_equal.
  destruct (dedup_inv_foldl tasks) as [_ Hnd Hel _].
  fold (dedup_tasks tasks) in Hnd, Hel.
  rewrite foldl_dedup_step_fresh; [done|done|].
  intros x Hx. apply Hel in Hx as [Hne (t & -> & _)%list_elem_of_fmap].
  repeat split; [done|apply strip_idempotent|set_solver].
Qed.

(** X11: when every request fails (with whatever exception), the summary of
    a list with some non-blank entry is made of the first [max_points]
    deduplicated entries, verbatim and in order. *)
Theorem summarize_team_tasks_endpoint_down
    (remote : nat → string → Z → attempt) tasks max_points w :
  (∀ n text timeout, ∃ e, remote n text timeout = Failed e) →
  1 ≤ max_points →
  dedup_tasks tasks ≠ [] →
  (summarize_team_tasks remote tasks max_points w).1
  = Ok (bullet_block (take (Z.to_nat max_points) (dedup_tasks tasks))).
Proof.
  intros Hdown Hmp Hne. unfold summarize_team_tasks.
  rewrite <- (bulletify_dedup_tasks tasks max_points Hmp).
  destruct (dedup_tasks tasks) as [|t dedup] eqn:Hdedup; [done|].
  unfold bind at 1.
  assert (Hdirect : ∃ w1, direct_call remote (t :: dedup) max_points w
                          = (Ok Fallthrough, w1)).
  { unfold direct_call. rewrite try_except_exception.
    destruct (_ && _); [|by eexists].
    unfold bind.
    destruct (hf_post_fails remote (PyStr.join " . " (t :: dedup)) 120 3 w
                Hdown) as (e & w1 & ->). by eexists. }
  destruct Hdirect as [w1 ->].
  unfold bind at 1.
  destruct (chunked_calls_returns remote (t :: dedup) w1)
    as (chunk_summaries & w2 & ->).
  unfold bind.
  destruct (hf_post_fails remote (PyStr.join " " chunk_summaries) 120 2 w2
              Hdown) as (e & w3 & Hpost).
  by rewrite (combine_pass_degrades _ _ _ _ _ _ Hpost).
Qed.

Lemma summarize_team_tasks_endpoint_down_witness :
  (summarize_team_tasks remote_down ["b"; "a"; "b"; " "; "c"] 2 quiet).1
  = Ok (bullet_block (take 2 (dedup_tasks ["b"; "a"; "b"; " "; "c"]))).
Proof.
  apply (summarize_team_tasks_endpoint_down remote_down
           ["b"; "a"; "b"; " "; "c"] 2 quiet).
  - intros. by eexists.
  - lia.
  - vm_compute. discriminate.
Defined.

(** ** What the pipeline spends *)

Lemma sum_Z_app l1 l2 : sum_Z (l1 ++ l2) = sum_Z l1 + sum_Z l2.
Proof.
  unfold sum_Z. induction l1 as [|x l1 IH]; simpl; [done|]. rewrite IH. lia.
Qed.

Lemma spends_ret {A} (v : A) w : spends (ret v) w 0 0.
Proof. exists [], []. simpl. by rewrite !app_nil_r. Qed.

Lemma spends_weaken {A} (m : M A) w r s r' s' :
  spends m w r s → (r ≤ r')%nat → s ≤ s' → spends m w r' s'.
Proof.
  intros (ps & ss & Hp & Hs & Hr & Hsum) Hr' Hs'.
  exists ps, ss. repeat split; [done|done|lia|lia].
Qed.

Lemma spends_bind {A B} (m : M A) (k : A → M B) w r1 s1 r2 s2 :
  spends m w r1 s1 → (∀ v w', spends (k v) w' r2 s2) → 0 ≤ s2 →
  spends (bind m k) w (r1 + r2) (s1 + s2).
Proof.
  intros (ps1 & ss1 & Hp1 & Hs1 & Hr1 & Hsum1) Hk Hs2. unfold spends, bind.
  destruct (m w) as [[v|e] w1]; simpl in *.
  - destruct (Hk v w1) as (ps2 & ss2 & Hp2 & Hs2' & Hr2 & Hsum2).
    exists (ps1 ++ ps2), (ss1 ++ ss2).
    rewrite Hp2, Hs2', Hp1, Hs1, !app_assoc, length_app, sum_Z_app.
    repeat split; [lia|lia].
  - exists ps1, ss1. repeat split; [done|done|lia|lia].
Qed.

Lemma spends_try_except {A} (body : M A) (x : A) w r s :
  spends body w r s → spends (try_except is_exception body (λ _, ret x)) w r s.
Proof.
  unfold spends. rewrite try_except_exception.
  by destruct (body w) as [[v|e] w1].
Qed.

Lemma spends_hf_post remote text timeout max_retries w :
  1 ≤ max_retries →
  spends (hf_post remote text timeout max_retries) w
    (Z.to_nat max_retries) (2 ^ max_retries - 2).
Proof.
  intros Hmax.
  destruct (hf_post_run remote text timeout max_retries w Hmax)
    as (k & Hk & Hle & _ & _ & Hrun).
  exists (replicate k text), (backoff_waits (k - 1)). rewrite Hrun. simpl.
  rewrite length_replicate, sum_Z_backoff_waits.
  replace (Z.of_nat (k - 1) + 1) with (Z.of_nat k) by lia.
  assert (2 ^ Z.of_nat k ≤ 2 ^ max_retries) by (apply Z.pow_le_mono_r; lia).
  repeat split; [lia|lia].
Qed.

Lemma spends_direct_call remote dedup max_points w :
  spends (direct_call remote dedup max_points) w 3 6.
Proof.
  apply spends_try_except. destruct (_ && _).
  - apply (spends_bind _ _ _ 3 6 0 0); [|intros; apply spends_ret|done].
    by apply (spends_hf_post _ _ _ 3).
  - eapply spends_weaken; [apply spends_ret|lia|lia].
Qed.

Lemma spends_summarize_chunk remote dedup i w :
  spends (summarize_chunk remote dedup i) w 2 2.
Proof.
  apply spends_try_except.
  apply (spends_bind _ _ _ 2 2 0 0); [|intros; apply spends_ret|done].
  by apply (spends_hf_post _ _ _ 2).
Qed.

Lemma spends_chunk_loop remote dedup starts acc w :
  spends (chunk_loop remote dedup starts acc) w
    (2 * length starts) (2 * Z.of_nat (length starts)).
Proof.
  revert acc w. induction starts as [|i starts IH]; intros acc w.
  - apply spends_ret.
  - cbn [chunk_loop].
    eapply spends_weaken;
      [apply (spends_bind _ _ _ 2 2 (2 * length starts)
                (2 * Z.of_nat (length starts)))|simpl; lia|simpl; lia].
    + apply spends_summarize_chunk.
    + intros s w'. apply IH.
    + lia.
Qed.

Lemma spends_combine_pass remote chunk_summaries max_points w :
  spends (combine_pass remote chunk_summaries max_points) w 2 2.
Proof.
  apply spends_try_except.
  apply (spends_bind _ _ _ 2 2 0 0); [|intros; apply spends_ret|done].
  by apply (spends_hf_post _ _ _ 2).
Qed.

(** X12: the cost of one summary.  [summarize_team_tasks] only appends to
    the world; with [c] chunks it makes at most [5 + 2 * c] requests (3 for
    the direct call, 2 per chunk, 2 for the combine pass) and sleeps at most
    [8 + 2 * c] in all, whatever the endpoint does. *)
Theorem summarize_team_tasks_budget
    (remote : nat → string → Z → attempt) tasks max_points w :
  ∃ ps ss,
    posted (summarize_team_tasks remote tasks max_points w).2 = posted w ++ ps
    ∧ slept (summarize_team_tasks remote tasks max_points w).2
      = slept w ++ ss
    ∧ (length ps ≤ 5 + 2 * ((length (dedup_tasks tasks) + 9) / 10))%nat
    ∧ sum_Z ss
      ≤ 8 + 2 * Z.of_nat ((length (dedup_tasks tasks) + 9) / 10).
Proof.
  set (c := ((length (dedup_tasks tasks) + 9) / 10)%nat).
  change (spends (summarize_team_tasks remote tasks max_points) w
            (5 + 2 * c) (8 + 2 * Z.of_nat c)).
  unfold summarize_team_tasks. subst c.
  destruct (dedup_tasks tasks) as [|t dedup].
  { eapply spends_weaken; [apply spends_ret|lia|lia]. }
  set (c := ((length (t :: dedup) + 9) / 10)%nat).
  eapply spends_weaken;
    [apply (spends_bind _ _ _ 3 6 (2 * c + 2) (2 * Z.of_nat c + 2))
    |lia|lia]; [apply spends_direct_call| |lia].
  intros [points|] w1.
  { eapply spends_weaken; [apply spends_ret|lia|lia]. }
  apply (spends_bind _ _ _ (2 * c) (2 * Z.of_nat c) 2 2); [| |lia].
  - unfold chunked_calls.
    assert (Hc : length (py_range_step (length (t :: dedup)) chunk_size) = c).
    { rewrite py_range_step_chunks. by rewrite length_fmap, length_seq. }
    rewrite <- Hc. apply spends_chunk_loop.
  - intros chunk_summaries w2.
    eapply spends_weaken;
      [apply (spends_bind _ _ _ 2 2 0 0)|lia|lia];
      [apply spends_combine_pass| |done].
    intros [points|] w3; apply spends_ret.
Qed.

(** ** The direct call *)

Lemma hf_post_first_responds remote text timeout max_retries w body :
  1 ≤ max_retries →
  remote (length (posted w)) text timeout = Responded body →
  hf_post remote text timeout max_retries w
  = (Ok body, World (posted w ++ [text]) (slept w)).
Proof.
  intros Hmax Hfirst.
  destruct (hf_post_run remote text timeout max_retries w Hmax)
    as (k & Hk & _ & Hbefore & _ & Hrun).
  destruct (decide (k = 1%nat)) as [->|Hne].
  - rewrite Hrun. simpl. by rewrite Nat.add_0_r, Hfirst, app_nil_r.
  - specialize (Hbefore 0%nat ltac:(lia)).
    by rewrite Nat.add_0_r, Hfirst in Hbefore.
Qed.

(** X13: the direct call that succeeds.  For at most 6 deduplicated entries
    of fewer than 1200 characters in all, if the first request is answered
    with a body whose extracted text splits into at least one bullet, the
    summary is the block of these bullets, after that single request and no
    sleep. *)
Theorem summarize_team_tasks_direct
    (remote : nat → string → Z → attempt) tasks max_points w body text b bs :
  dedup_tasks tasks ≠ [] →
  (length (dedup_tasks tasks) ≤ 6)%nat →
  joined_len (dedup_tasks tasks) < 1200 →
  remote (length (posted w)) (PyStr.join " . " (dedup_tasks tasks)) 120
  = Responded body →
  extract_summary_from_response body = Some text →
  split_to_bullets text max_points = b :: bs →
  summarize_team_tasks remote tasks max_points w
  = (Ok (bullet_block (b :: bs)),
     World (posted w ++ [PyStr.join " . " (dedup_tasks tasks)]) (slept w)).
Proof.
  intros Hne Hcount Hlen Hfirst Hextract Hsplit.
  unfold summarize_team_tasks.
  destruct (dedup_tasks tasks) as [|t dedup] eqn:Hdedup; [done|].
  unfold bind at 1, direct_call. rewrite try_except_exception.
  destruct (Z.leb_spec (Z.of_nat (length (t :: dedup))) 6); [|lia].
  destruct (Z.ltb_spec (joined_len (t :: dedup)) 1200); [|lia].
  cbn [andb]. unfold bind at 1.
  rewrite (hf_post_first_responds _ _ _ 3 _ body) by (lia || done).
  unfold ret at 1. rewrite Hextract. unfold usable_points.
  assert (Htruthy : PyStr.truthy text = true).
  { destruct text; [|done]. by unfold split_to_bullets in Hsplit. }
  by rewrite Htruthy, Hsplit.
Qed.

Lemma summarize_team_tasks_direct_witness :
  summarize_team_tasks
    (remote_up (PList [PDict {[ "summary_text" :=
       PStr "Team finished the migration. Team wrote the tests!" ]}]))
    ["migrate"; " tests "; "migrate"] 5 quiet
  = (Ok (bullet_block ["Team finished the migration"; "Team wrote the tests"]),
     World ["migrate . tests"] []).
Proof.
  refine (summarize_team_tasks_direct
            (remote_up (PList [PDict {[ "summary_text" :=
               PStr "Team finished the migration. Team wrote the tests!" ]}]))
            ["migrate"; " tests "; "migrate"] 5 quiet _
            "Team finished the migration. Team wrote the tests!"
            "Team finished the migration" ["Team wrote the tests"]
            _ _ _ eq_refl _ _).
  - vm_compute. discriminate.
  - vm_compute. lia.
  - vm_compute. reflexivity.
  - vm_compute. reflexivity.
  - vm_compute. reflexivity.
Defined.

(** ** Large inputs *)

Lemma hf_post_posts_first remote text timeout max_retries w :
  1 ≤ max_retries →
  ∃ more, posted (hf_post remote text timeout max_retries w).2
          = posted w ++ text :: more.
Proof.
  intros Hmax.
  destruct (hf_post_run remote text timeout max_retries w Hmax)
    as (k & Hk & _ & _ & _ & ->).
  destruct k as [|k]; [lia|]. by exists (replicate k text).
Qed.

Lemma spends_posted {A} (m : M A) w r s :
  spends m w r s → ∃ ps, posted (m w).2 = posted w ++ ps.
Proof. intros (ps & _ & Hp & _). by exists ps. Qed.

Lemma posts_first_bind {A B} (m : M A) (k : A → M B) w text :
  (∃ ps, posted (m w).2 = posted w ++ text :: ps) →
  (∀ v w', ∃ ps', posted (k v w').2 = posted w' ++ ps') →
  ∃ more, posted (bind m k w).2 = posted w ++ text :: more.
Proof.
  intros [ps Hm] Hk. unfold bind.
  destruct (m w) as [[v|e] w1]; simpl in Hm; [|by exists ps].
  destruct (Hk v w1) as [ps' ->]. rewrite Hm, <- app_assoc.
  by exists (ps ++ ps').
Qed.

Lemma summarize_chunk_posts_first remote dedup i w :
  ∃ ps, posted (summarize_chunk remote dedup i w).2
        = posted w ++ PyStr.join " . " (take chunk_size (drop i dedup)) :: ps.
Proof.
  unfold summarize_chunk. rewrite try_except_exception. unfold bind.
  set (text := PyStr.join " . " (take chunk_size (drop i dedup))).
  destruct (hf_post_posts_first remote text 120 2 w) as [ps Hps]; [lia|].
  exists ps. by destruct (hf_post remote text 120 2 w) as [[body|e] w1].
Qed.

(** The first text posted for a list with some non-blank entry: all the
    entries when the direct call is made, the first chunk otherwise. *)
Lemma summarize_team_tasks_first_post remote tasks max_points w :
  dedup_tasks tasks ≠ [] →
  ∃ more,
    posted (summarize_team_tasks remote tasks max_points w).2
    = posted w
      ++ (if (Z.of_nat (length (dedup_tasks tasks)) <=? 6)
             && (joined_len (dedup_tasks tasks) <? 1200)
          then PyStr.join " . " (dedup_tasks tasks)
          else PyStr.join " . " (take 10 (dedup_tasks tasks))) :: more.
Proof.
  intros Hne. unfold summarize_team_tasks.
  destruct (dedup_tasks tasks) as [|t dedup] eqn:Hdedup; [done|].
  assert (Hrest : ∀ w1 : world, ∃ ps,
            posted (bind (chunked_calls remote (t :: dedup))
                      (λ chunk_summaries,
                         bind (combine_pass remote chunk_summaries max_points)
                           (λ combined,
                              match combined with
                              | Return points => ret (bullet_block points)
                              | Fallthrough =>
                                  ret (bullet_block
                                         (bulletify_tasks (t :: dedup)
                                            max_points))
                              end)) w1).2 = posted w1 ++ ps).
  { intros w1. eapply spends_posted.
    apply (spends_bind _ _ _
             (2 * length (py_range_step (length (t :: dedup)) chunk_size))
             (2 * Z.of_nat
                    (length (py_range_step (length (t :: dedup)) chunk_size)))
             2 2); [apply spends_chunk_loop| |lia].
    intros chunk_summaries w2.
    apply (spends_bind _ _ _ 2 2 0 0);
      [apply spends_combine_pass| |done].
    intros [points|] w3; apply spends_ret. }
  destruct ((Z.of_nat (length (t :: dedup)) <=? 6)
            && (joined_len (t :: dedup) <? 1200)) eqn:Hsmall.
  - apply posts_first_bind.
    + unfold direct_call. rewrite try_except_exception, Hsmall. unfold bind.
      destruct (hf_post_posts_first remote
                  (PyStr.join " . " (t :: dedup)) 120 3 w) as [ps Hps]; [lia|].
      exists ps. by destruct (hf_post _ _ _ _ _) as [[body|e] w1].
    + intros [points|] w1; [exists []; simpl; by rewrite app_nil_r|].
      apply Hrest.
  - unfold bind at 1. rewrite (direct_call_skipped _ _ _ _ Hsmall).
    unfold chunked_calls. rewrite py_range_step_chunks.
    assert (Hstarts : ∃ n, ((length (t :: dedup) + 9) / 10)%nat = S n).
    { destruct (chunk_count_bounds (length (t :: dedup))) as [Hcover _].
      destruct ((length (t :: dedup) + 9) / 10)%nat; [simpl in Hcover; lia|].
      by eexists. }
    destruct Hstarts as [n ->]. cbn [seq fmap list_fmap chunk_loop].
    change (0 * 10)%nat with 0%nat.
    apply posts_first_bind; [apply posts_first_bind|].
    * apply (summarize_chunk_posts_first remote (t :: dedup) 0 w).
    * intros s w1. eapply spends_posted, spends_chunk_loop.
    * intros chunk_summaries w2. eapply spends_posted.
      apply (spends_bind _ _ _ 2 2 0 0);
        [apply spends_combine_pass| |done].
      intros [points|] w3; apply spends_ret.
Qed.



(** ** The height of the row *)

Lemma str_app_cons c s t : String c s +:+ t = String c (s +:+ t).
Proof. reflexivity. Qed.

Lemma str_app_nil_r s : s +:+ "" = s.
Proof. induction s as [|c s IH]; [done|]. by rewrite str_app_cons, IH. Qed.

Lemma str_app_assoc s t u : (s +:+ t) +:+ u = s +:+ (t +:+ u).
Proof. induction s as [|c s IH]; [done|]. by rewrite !str_app_cons, IH. Qed.

Lemma str_app_length s t :
  String.length (s +:+ t) = (String.length s + String.length t)%nat.
Proof.
  induction s as [|c s IH]; [done|]. rewrite str_app_cons. simpl. by rewrite IH.
Qed.

Lemma count_newlines_app s t :
  count_newlines (s +:+ t) = count_newlines s + count_newlines t.
Proof.
  induction s as [|c s IH]; [done|].
  rewrite str_app_cons. cbn [count_newlines]. rewrite IH. lia.
Qed.

Lemma count_newlines_bullet_block p points :
  count_newlines (bullet_block (p :: points)) + 1
  = Z.of_nat (length (p :: points))
    + sum_Z (count_newlines <$> p :: points).
Proof.
  unfold bullet_block, PyStr.join. revert p.
  induction points as [|q points IH]; intros p.
  - cbn [fmap list_fmap String.concat length]. rewrite count_newlines_app.
    unfold sum_Z. simpl. lia.
  - specialize (IH q). cbn [fmap list_fmap String.concat length] in *.
    rewrite !count_newlines_app.
    change (sum_Z (count_newlines p :: count_newlines q
                     :: (count_newlines <$> points)))
      with (count_newlines p
            + sum_Z (count_newlines q :: (count_newlines <$> points))).
    change (count_newlines (String "010" "")) with 1.
    change (count_newlines "- ") with 0.
    lia.
Qed.

(** X15: the row of a summary.  The height given to the row is 16 per line
    and stays between 20 and 300; for the block of a non-empty bullet list
    the number of lines is the number of bullets plus the number of newline
    characters inside the bullets. *)
Theorem row_height_bullet_block (points : list string) :
  points ≠ [] →
  row_height (bullet_block points)
  = Z.max 20
      (Z.min 300
         ((Z.of_nat (length points) + sum_Z (count_newlines <$> points)) * 16))
  ∧ 20 ≤ row_height (bullet_block points) ≤ 300.
Proof.
  intros Hne. destruct points as [|p points]; [done|].
  unfold row_height. cbv zeta. rewrite count_newlines_bullet_block. lia.
Qed.

Lemma row_height_bullet_block_witness :
  row_height (bullet_block ["a"; "b"; "c"]) = 48.
Proof.
  rewrite (proj1 (row_height_bullet_block ["a"; "b"; "c"] ltac:(done))).
  reflexivity.
Defined.

(** ** More on the bullet splitter *)

(** X16: the maximum only truncates.  For [0 <= m <= m'] the bullets for
    [m] are the first [m] bullets for [m'], and there are at most [m]. *)
Theorem split_to_bullets_truncates text (m m' : Z) :
  0 ≤ m ≤ m' →
  split_to_bullets text m = take (Z.to_nat m) (split_to_bullets text m')
  ∧ Z.of_nat (length (split_to_bullets text m)) ≤ m.
Proof.
  intros Hm. split; [|apply split_to_bullets_length; lia].
  unfold split_to_bullets. destruct (negb _); [by rewrite take_nil|].
  unfold PyStr.slice_to.
  destruct (Z.leb_spec 0 m); [|lia]. destruct (Z.leb_spec 0 m'); [|lia].
  rewrite take_take. f_equal. lia.
Qed.

Lemma split_to_bullets_truncates_witness :
  split_to_bullets "Did task A. Did task B! Did task C?" 2
  = take 2 (split_to_bullets "Did task A. Did task B! Did task C?" 5).
Proof.
  exact (proj1 (split_to_bullets_truncates
                  "Did task A. Did task B! Did task C?" 2 5 ltac:(lia))).
Defined.

(** Fragments. *)

Lemma substring_of_refl s : substring_of s s.
Proof. exists "", "". by rewrite str_app_nil_r. Qed.

Lemma substring_of_trans a b c :
  substring_of a b → substring_of b c → substring_of a c.
Proof.
  intros (p1 & q1 & ->) (p2 & q2 & ->).
  exists (p2 +:+ p1), (q1 +:+ q2). by rewrite !str_app_assoc.
Qed.

Lemma substring_of_app_r a pre s : substring_of a s → substring_of a (pre +:+ s).
Proof.
  intros (p & q & ->). exists (pre +:+ p), q. by rewrite !str_app_assoc.
Qed.

Lemma substring_of_app_l a s post : substring_of a s → substring_of a (s +:+ post).
Proof.
  intros (p & q & ->). exists p, (q +:+ post). by rewrite !str_app_assoc.
Qed.

Lemma lstrip_chars_suffix p s : ∃ pre, s = pre +:+ PyStr.lstrip_chars p s.
Proof.
  induction s as [|c s [pre IH]]; [by exists ""|]. simpl.
  destruct (p c); [|by exists ""].
  exists (String c pre). by rewrite str_app_cons, <- IH.
Qed.

Lemma rstrip_chars_prefix p s : ∃ post, s = PyStr.rstrip_chars p s +:+ post.
Proof.
  induction s as [|c s [post IH]]; [by exists ""|]. simpl.
  destruct (PyStr.rstrip_chars p s) as [|b r].
  - destruct (p c); [by exists (String c s)|].
    exists s. done.
  - exists post. by rewrite str_app_cons, <- IH.
Qed.

Lemma rstrip_chars_substring p s : substring_of (PyStr.rstrip_chars p s) s.
Proof. destruct (rstrip_chars_prefix p s) as [post H]. by exists "", post. Qed.

Lemma strip_substring s : substring_of (PyStr.strip s) s.
Proof.
  eapply substring_of_trans; [apply rstrip_chars_substring|].
  destruct (lstrip_chars_suffix PyStr.is_space s) as [pre H].
  exists pre, "". by rewrite str_app_nil_r.
Qed.

Lemma split_go_substring behind cls st cur s piece :
  piece ∈ Re.split_go behind cls st cur s → substring_of piece (cur +:+ s).
Proof.
  revert st cur. induction s as [|c s IH]; intros st cur; simpl.
  - intros ->%list_elem_of_singleton. rewrite str_app_nil_r.
    apply substring_of_refl.
  - assert (Hrest : ∀ a, substring_of a s
                         → substring_of a (cur +:+ String c s)).
    { intros a Ha. apply substring_of_app_r.
      by apply (substring_of_app_r a (String c "")). }
    assert (Hmove : ∀ cur', (cur' +:+ String c "") +:+ s
                            = cur' +:+ String c s)
      by (intros; by rewrite str_app_assoc).
    destruct st as [ok|].
    + destruct (ok && cls c).
      * intros [->|Hin]%elem_of_cons.
        -- apply substring_of_app_l, substring_of_refl.
        -- apply Hrest. by apply (IH _ _ Hin).
      * intros Hin%IH. by rewrite Hmove in Hin.
    + destruct (cls c).
      * intros Hin%IH. by apply Hrest.
      * intros Hin%IH. by apply substring_of_app_r.
Qed.

Lemma split_substring behind cls s piece :
  piece ∈ Re.split behind cls s → substring_of piece s.
Proof. apply split_go_substring. Qed.

(** X17: the splitter invents nothing: every bullet occurs in the text as a
    run of consecutive characters. *)
Theorem split_to_bullets_substring text max_points b :
  b ∈ split_to_bullets text max_points → substring_of b text.
Proof.
  intros [(u & Hu & _ & ->)|(u & Hu & _ & ->)]%split_to_bullets_source.
  - eapply substring_of_trans; [apply rstrip_chars_substring|].
    eapply substring_of_trans; [apply strip_substring|].
    eapply substring_of_trans; [by apply split_substring in Hu|].
    apply strip_substring.
  - eapply substring_of_trans; [apply strip_substring|].
    by apply split_substring in Hu.
Qed.

Lemma split_to_bullets_substring_witness :
  substring_of "Did task B" "Did task A. Did task B! Did task C?".
Proof.
  apply (split_to_bullets_substring _ 5). vm_compute. right. left.
Defined.

(** Stripping keeps a fragment that has no whitespace at its ends. *)

Lemma lstrip_keeps pre q post :
  q ≠ "" → no_leading_space q →
  ∃ pre', PyStr.lstrip_chars PyStr.is_space (pre +:+ q +:+ post)
          = pre' +:+ q +:+ post.
Proof.
  intros Hq Hlead. induction pre as [|a pre IH].
  - exists "". destruct q as [|c q]; [done|].
    change ("" +:+ String c q +:+ post) with (String c (q +:+ post)).
    simpl. by rewrite (Hlead c eq_refl).
  - rewrite str_app_cons. simpl. destruct (PyStr.is_space a); [done|].
    exists (String a pre). by rewrite str_app_cons.
Qed.

Lemma last_char_cons c s :
  s ≠ "" → PyStr.last_char (String c s) = PyStr.last_char s.
Proof. by destruct s. Qed.

Lemma rstrip_keeps_here q post :
  q ≠ "" → no_trailing_space q →
  ∃ post', PyStr.rstrip_chars PyStr.is_space (q +:+ post) = q +:+ post'.
Proof.
  induction q as [|c q IH]; [done|]. intros _ Htrail.
  rewrite str_app_cons. cbn [PyStr.rstrip_chars].
  destruct q as [|d q].
  - change ("" +:+ post) with post.
    destruct (PyStr.rstrip_chars PyStr.is_space post) as [|b r].
    + rewrite (Htrail c eq_refl). by exists "".
    + by exists (String b r).
  - destruct IH as [post' ->]; [done| |].
    { intros x Hx. apply Htrail. by rewrite last_char_cons. }
    rewrite str_app_cons. by exists post'.
Qed.

Lemma rstrip_keeps pre q post :
  q ≠ "" → no_trailing_space q →
  ∃ post', PyStr.rstrip_chars PyStr.is_space (pre +:+ q +:+ post)
           = pre +:+ q +:+ post'.
Proof.
  intros Hq Htrail. induction pre as [|a pre [post' IH]].
  - exact (rstrip_keeps_here q post Hq Htrail).
  - rewrite str_app_cons. cbn [PyStr.rstrip_chars]. rewrite IH.
    destruct (pre +:+ q +:+ post') eqn:E.
    + destruct pre, q; done.
    + exists post'. by rewrite str_app_cons, E.
Qed.

Lemma strip_keeps q s :
  q ≠ "" → no_leading_space q → no_trailing_space q →
  substring_of q s → substring_of q (PyStr.strip s).
Proof.
  intros Hq Hlead Htrail (pre & post & ->). unfold PyStr.strip.
  destruct (lstrip_keeps pre q post Hq Hlead) as [pre' ->].
  destruct (rstrip_keeps pre' q post Hq Htrail) as [post' ->].
  by exists pre', post'.
Qed.

Lemma substring_of_length a s :
  substring_of a s → (String.length a ≤ String.length s)%nat.
Proof. intros (pre & post & ->). rewrite !str_app_length. lia. Qed.

Lemma strip_length_mono p s :
  substring_of p s → PyStr.len (PyStr.strip p) ≤ PyStr.len (PyStr.strip s).
Proof.
  intros Hsub. unfold PyStr.len.
  destruct (decide (PyStr.strip p = "")) as [->|Hne]; [simpl; lia|].
  apply Nat2Z.inj_le, substring_of_length, strip_keeps;
    [done|apply strip_no_leading_space|apply strip_no_trailing_space|].
  eapply substring_of_trans; [apply strip_substring|done].
Qed.

Lemma filter_long_enough_nil (l : list string) :
  (∀ u, u ∈ l → ¬ long_enough u) → filter long_enough l = [].
Proof.
  induction l as [|u l IH]; intros Hl; [done|].
  rewrite filter_cons, decide_False by (apply Hl; left).
  apply IH. intros v Hv. apply Hl. by right.
Qed.

(** X18: a text of at most 10 characters between its first and its last
    non-blank character gives no bullet at all, whatever the maximum. *)
Theorem split_to_bullets_short_text text max_points :
  PyStr.len (PyStr.strip text) ≤ 10 →
  split_to_bullets text max_points = [].
Proof.
  intros Hshort. unfold split_to_bullets. destruct (negb _); [done|].
  rewrite (filter_long_enough_nil (Re.split_sentences _)); cycle 1.
  { intros u Hu%split_substring%strip_length_mono.
    rewrite strip_idempotent in Hu. unfold long_enough. lia. }
  cbn [fmap list_fmap length Nat.eqb].
  rewrite (filter_long_enough_nil (Re.split_lines _)); cycle 1.
  { intros u Hu%split_substring%strip_length_mono. unfold long_enough. lia. }
  unfold PyStr.slice_to. cbn [fmap list_fmap].
  destruct (0 <=? max_points); apply take_nil.
Qed.

Lemma split_to_bullets_short_text_witness :
  split_to_bullets "  Done; ok.  " 5 = [].
Proof.
  apply split_to_bullets_short_text. vm_compute. discriminate.
Defined.

(** ** More on the response extractor *)

(** X19: only the three preferred fields are read: setting any other field
    of a keyed structure changes nothing. *)
Theorem extract_summary_other_field (d : gmap string pyval) k v :
  k ∉ summary_keys →
  extract_summary_from_response (PDict (<[k := v]> d))
  = extract_summary_from_response (PDict d)
  ∧ (∀ rest,
       extract_summary_from_response (PList (PDict (<[k := v]> d) :: rest))
       = extract_summary_from_response (PList (PDict d :: rest))).
Proof.
  intros Hk.
  assert (Hfields : field_loop summary_keys (<[k := v]> d)
                    = field_loop summary_keys d).
  { unfold summary_keys in *. cbn [field_loop].
    rewrite !lookup_insert_ne; [done|..];
      intros ->; apply Hk; set_solver. }
  split; [|intros rest]; unfold extract_summary_from_response;
    by rewrite Hfields.
Qed.

Lemma extract_summary_other_field_witness :
  extract_summary_from_response
    (PDict (<["score" := PInt 3]> {[ "text" := PStr "done" ]}))
  = extract_summary_from_response (PDict {[ "text" := PStr "done" ]}).
Proof.
  refine (proj1 (extract_summary_other_field _ "score" (PInt 3) _)).
  unfold summary_keys. intros H.
  repeat (apply elem_of_cons in H as [H|H]; [discriminate|]).
  by apply elem_of_nil in H.
Defined.

(** ** Grouping the records by team *)

Lemma kept_details_cons_Some t ts details :
  task_details t = Some details →
  kept_details (t :: ts)
  = (if PyStr.truthy details then [details] else []) ++ kept_details ts.
Proof.
  intros Ht. unfold kept_details. cbn [omap list_omap]. rewrite Ht.
  rewrite filter_cons. destruct (decide (details ≠ "")) as [Hne|Hempty].
  - apply truthy_nonempty in Hne. by rewrite Hne.
  - destruct details; [done|]. by destruct Hempty.
Qed.

Lemma tasks_loop_spec team team_tasks ts result :
  tasks_loop team team_tasks ts = Some result →
  (no_empty_group team_tasks → no_empty_group result)
  ∧ ∀ team',
      default [] (result !! team')
      = default [] (team_tasks !! team')
        ++ (if decide (team' = team) then kept_details ts else []).
Proof.
  revert team_tasks. induction ts as [|t ts IH]; intros team_tasks.
  - intros [= <-]. split; [done|]. intros team'.
    unfold kept_details. simpl. destruct (decide _); by rewrite app_nil_r.
  - cbn [tasks_loop]. unfold append_task.
    destruct (task_details t) as [details|] eqn:Ht; [|done]. simpl.
    intros [Hgroups Hlists]%IH.
    rewrite (kept_details_cons_Some _ _ _ Ht).
    destruct (PyStr.truthy details).
    + split.
      * intros Hne. apply Hgroups. intros k l.
        destruct (decide (team = k)) as [<-|Hk].
        -- rewrite lookup_insert_eq. intros [= <-]. by destruct (default _ _).
        -- rewrite lookup_insert_ne by done. apply Hne.
      * intros team'. rewrite Hlists.
        destruct (decide (team' = team)) as [->|Hk].
        -- rewrite lookup_insert_eq. simpl. by rewrite <- app_assoc.
        -- by rewrite lookup_insert_ne by done.
    + split; [done|]. intros team'. rewrite Hlists. by destruct (decide _).
Qed.

Lemma records_loop_spec team_tasks data result :
  records_loop team_tasks data = Some result →
  (no_empty_group team_tasks → no_empty_group result)
  ∧ ∀ team,
      default [] (result !! team)
      = default [] (team_tasks !! team) ++ team_details team data.
Proof.
  revert team_tasks. induction data as [|record data IH]; intros team_tasks.
  - intros [= <-]. split; [done|]. intros team. simpl. by rewrite app_nil_r.
  - cbn [records_loop team_details].
    destruct (get_stripped (rec_team record) "") as [team|]; [|done]. simpl.
    destruct (tasks_loop team team_tasks (rec_tasks record))
      as [team_tasks'|] eqn:Htasks; [|done]. simpl.
    apply tasks_loop_spec in Htasks as [Hgroups1 Hlists1].
    intros [Hgroups2 Hlists2]%IH. split; [by auto|].
    intros team'. rewrite Hlists2, Hlists1, <- app_assoc. do 2 f_equal.
    destruct (decide (team' = team)) as [->|Hne].
    + by rewrite decide_True.
    + rewrite decide_False; [done|]. intros [= ->]. done.
Qed.

Lemma team_details_entries team data s :
  s ∈ team_details team data → s ≠ "" ∧ PyStr.strip s = s.
Proof.
  induction data as [|record data IH]; simpl; [by intros ?%elem_of_nil|].
  intros [Hs|Hs]%elem_of_app; [|by apply IH].
  destruct (decide _); [|by apply elem_of_nil in Hs].
  unfold kept_details in Hs. apply list_elem_of_filter in Hs as [Hne Hs].
  split; [done|]. apply list_elem_of_omap in Hs as (t & _ & Ht).
  destruct t as [fields|str]; simpl in Ht.
  - unfold get_stripped, strip_value in Ht.
    destruct (default _ _); try done. injection Ht as <-.
    apply strip_idempotent.
  - injection Ht as <-. apply strip_idempotent.
Qed.

(** X20: the grouping.  When it succeeds, the list stored for a team is made
    of the stripped non-blank details of the tasks of that team's records, in
    the order of the records and of their tasks; a team is a key exactly
    when that list is not empty. *)
Theorem group_by_team_details (data : list report) team_tasks :
  group_by_team data = Some team_tasks →
  ∀ team,
    default [] (team_tasks !! team) = team_details team data
    ∧ (is_Some (team_tasks !! team) ↔ team_details team data ≠ []).
Proof.
  intros [Hgroups Hlists]%records_loop_spec team.
  specialize (Hlists team). rewrite lookup_empty in Hlists. simpl in Hlists.
  split; [done|]. rewrite <- Hlists. split.
  - intros [l Hl]. rewrite Hl. simpl. apply (Hgroups ltac:(done) team l Hl).
  - destruct (team_tasks !! team); [by eexists|done].
Qed.

Lemma group_by_team_details_witness :
  default []
    (({[ "ops" := ["deploy"; "review"] ]} : gmap string (list string))
       !! "ops")
  = team_details "ops"
      [Report (Some (PStr " ops ")) None None
         [TaskOther " deploy "; TaskOther "  ";
          TaskDict {[ "details" := PStr "review" ]}]].
Proof.
  refine (proj1 (group_by_team_details
                   [Report (Some (PStr " ops ")) None None
                      [TaskOther " deploy "; TaskOther "  ";
                       TaskDict {[ "details" := PStr "review" ]}]]
                   {[ "ops" := ["deploy"; "review"] ]} _ "ops")).
  vm_compute. reflexivity.
Defined.

Lemma dedup_tasks_nonempty l x :
  x ∈ l → x ≠ "" → PyStr.strip x = x → dedup_tasks l ≠ [].
Proof.
  intros Hx Hne Hfix Hnil.
  destruct (dedup_inv_foldl l) as [_ _ Hel _]. fold (dedup_tasks l) in Hel.
  rewrite Hnil in Hel. apply (elem_of_nil x), Hel. split; [done|].
  rewrite <- Hfix. by apply list_elem_of_fmap_2.
Qed.

(** X21: what the report hands to the pipeline.  A list stored for a team is
    never empty and its entries are non-blank and stripped; so its
    deduplicated list is not empty, and [summarize_team_tasks] on it never
    takes the "No tasks reported" return: it posts at least one text. *)
Theorem group_by_team_feeds_pipeline (data : list report) team_tasks team l :
  group_by_team data = Some team_tasks →
  team_tasks !! team = Some l →
  l ≠ []
  ∧ Forall (λ s, s ≠ "" ∧ PyStr.strip s = s) l
  ∧ dedup_tasks l ≠ []
  ∧ ∀ (remote : nat → string → Z → attempt) max_points w,
      ∃ text more,
        posted (summarize_team_tasks remote l max_points w).2
        = posted w ++ text :: more.
Proof.
  intros [Hgroups Hlists]%records_loop_spec Hl.
  specialize (Hlists team). rewrite lookup_empty, Hl in Hlists.
  simpl in Hlists. subst l.
  assert (Hne : team_details team data ≠ [])
    by (by apply (Hgroups ltac:(done) team)).
  assert (Hall : Forall (λ s, s ≠ "" ∧ PyStr.strip s = s)
                   (team_details team data)).
  { apply Forall_forall. intros s. apply team_details_entries. }
  assert (Hdedup : dedup_tasks (team_details team data) ≠ []).
  { destruct (team_details team data) as [|x l] eqn:E; [done|].
    apply Forall_cons in Hall as [[Hx Hfix] _].
    apply (dedup_tasks_nonempty _ x); [left|done|done]. }
  repeat split; [done..|].
  intros remote max_points w.
  destruct (summarize_team_tasks_first_post remote _ max_points w Hdedup)
    as [more Hmore].
  by eexists _, more.
Qed.

Lemma group_by_team_feeds_pipeline_witness :
  ["deploy"; "review"] ≠ []
  ∧ dedup_tasks ["deploy"; "review"] ≠ [].
Proof.
  destruct (group_by_team_feeds_pipeline
              [Report (Some (PStr " ops ")) None None
                 [TaskOther " deploy "; TaskOther "  ";
                  TaskDict {[ "details" := PStr "review" ]}]]
              {[ "ops" := ["deploy"; "review"] ]} "ops" ["deploy"; "review"])
    as (H1 & _ & H2 & _).
  - vm_compute. reflexivity.
  - vm_compute. reflexivity.
  - by split.
Defined.

(** When [.strip()] is called on something that is not a [str]. *)






(** ** The department and team table *)

Lemma count_employee_lookup summary dept team emp tasks key :
  default (∅, ∅) (count_employee summary dept team emp tasks !! key)
  = (if decide (key = (dept, team) ∧ emp ≠ "")
     then ((default (∅, ∅) (summary !! key)).1 ∪ {[emp]},
           (default (∅, ∅) (summary !! key)).2
           ∪ match tasks with [] => ∅ | _ :: _ => {[emp]} end)
     else default (∅, ∅) (summary !! key))
  ∧ (is_Some (count_employee summary dept team emp tasks !! key)
     ↔ is_Some (summary !! key) ∨ (key = (dept, team) ∧ emp ≠ "")).
Proof.
  unfold count_employee.
  destruct (PyStr.truthy emp) eqn:Hemp.
  - apply truthy_nonempty in Hemp.
    destruct (decide (key = (dept, team))) as [->|Hkey].
    + rewrite lookup_insert_eq, decide_True by done. simpl. split.
      * destruct tasks; simpl; [|done]. f_equal. set_solver.
      * split; [by right|by eexists].
    + rewrite lookup_insert_ne by done.
      rewrite decide_False by (by intros [? _]). split; [done|].
      split; [by left|]. by intros [?|[? _]].
  - assert (emp = "") as -> by (by destruct emp).
    rewrite decide_False by (by intros [_ ?]). split; [done|].
    split; [by left|]. by intros [?|[_ ?]].
Qed.

Lemma employees_loop_spec summary0 data summary dept team :
  employees_loop summary0 data = Some summary →
  (is_Some (summary !! (dept, team))
   ↔ is_Some (summary0 !! (dept, team))
     ∨ ∃ record emp, record ∈ data ∧ names_employee record dept team emp)
  ∧ (∀ emp,
       emp ∈ (default (∅, ∅) (summary !! (dept, team))).1
       ↔ emp ∈ (default (∅, ∅) (summary0 !! (dept, team))).1
         ∨ ∃ record, record ∈ data ∧ names_employee record dept team emp)
  ∧ (∀ emp,
       emp ∈ (default (∅, ∅) (summary !! (dept, team))).2
       ↔ emp ∈ (default (∅, ∅) (summary0 !! (dept, team))).2
         ∨ ∃ record, record ∈ data ∧ names_employee record dept team emp
                     ∧ rec_tasks record ≠ []).
Proof.
  revert summary0. induction data as [|record data IH]; intros summary0.
  - intros [= <-]. repeat split; try (by left).
    + intros [?|(r & e & ?%elem_of_nil & _)]; done.
    + intros [?|(r & ?%elem_of_nil & _)]; done.
    + intros [?|(r & ?%elem_of_nil & _)]; done.
  - cbn [employees_loop]. unfold add_employee.
    destruct (get_stripped (rec_department record) "Unknown")
      as [d|] eqn:Hd; [|done].
    destruct (get_stripped (rec_team record) "Unknown")
      as [t|] eqn:Ht; [|done].
    destruct (get_stripped (rec_employee record) "")
      as [e|] eqn:He; [|done]. simpl.
    intros (Hkey & Hemps & Hreps)%IH.
    destruct (count_employee_lookup summary0 d t e (rec_tasks record)
                (dept, team)) as [Hinfo Hsome].
    assert (Hhere : ∀ emp,
              ((dept, team) = (d, t) ∧ e ≠ "") ∧ emp = e
              ↔ names_employee record dept team emp).
    { intros emp. unfold names_employee. rewrite Hd, Ht, He. split.
      - intros [[[= -> ->] Hne] ->]. done.
      - intros ([= ->] & [= ->] & [= ->] & Hne). done. }
    split; [|split].
    + rewrite Hkey, Hsome. split.
      * intros [[?|Hnew]|(r & emp & Hin & Hr)]; [by left| |].
        -- right. exists record, e. split; [left|]. by apply Hhere.
        -- right. exists r, emp. split; [by right|done].
      * intros [?|(r & emp & [->|Hin]%elem_of_cons & Hr)].
        -- by left; left.
        -- left; right. by apply (Hhere emp).
        -- right. by eauto.
    + intros emp. rewrite Hemps, Hinfo. split.
      * intros [Hold|(r & Hin & Hr)].
        -- destruct (decide _) as [Hnew|]; [|by left]. simpl in Hold.
           apply elem_of_union in Hold as [?| ->%elem_of_singleton];
             [by left|].
           right. exists record. split; [left|]. by apply Hhere.
        -- right. exists r. split; [by right|done].
      * intros [Hold|(r & [->|Hin]%elem_of_cons & Hr)].
        -- left. destruct (decide _); [|done]. simpl. set_solver.
        -- left. apply Hhere in Hr as [Hnew ->].
           rewrite decide_True by done. simpl. set_solver.
        -- right. by eauto.
    + intros emp. rewrite Hreps, Hinfo. split.
      * intros [Hold|(r & Hin & Hr & Htasks)].
        -- destruct (decide _) as [Hnew|]; [|by left]. simpl in Hold.
           apply elem_of_union in Hold as [?|Hold]; [by left|].
           destruct (rec_tasks record) eqn:Htasks; [set_solver|].
           apply elem_of_singleton in Hold as ->.
           right. exists record. split; [left|]. split; [by apply Hhere|].
           by rewrite Htasks.
        -- right. exists r. split; [by right|done].
      * intros [Hold|(r & [->|Hin]%elem_of_cons & Hr & Htasks)].
        -- left. destruct (decide _); [|done]. simpl. set_solver.
        -- left. apply Hhere in Hr as [Hnew ->].
           rewrite decide_True by done. simpl.
           destruct (rec_tasks record); [done|]. set_solver.
        -- right. by eauto.
Qed.

(** X23: what the table counts.  When the loop succeeds, [(dept, team)] has
    an entry exactly when some record names a non-blank employee under it;
    its ["employees"] are the distinct stripped names of these records and
    its ["reported"] those among them with a record whose task list is not
    empty.  So the number shown is a number of employees, counted once each,
    and at most the number of employees of the team. *)
Theorem dept_team_summary_counts (data : list report) summary dept team :
  dept_team_summary data = Some summary →
  (is_Some (summary !! (dept, team))
   ↔ ∃ record emp, record ∈ data ∧ names_employee record dept team emp)
  ∧ ∀ employees reported,
      summary !! (dept, team) = Some (employees, reported) →
      (∀ emp, emp ∈ employees
              ↔ ∃ record, record ∈ data ∧ names_employee record dept team emp)
      ∧ (∀ emp, emp ∈ reported
                ↔ ∃ record, record ∈ data
                    ∧ names_employee record dept team emp
                    ∧ rec_tasks record ≠ [])
      ∧ (size reported ≤ size employees)%nat.
Proof.
  intros (Hkey & Hemps & Hreps)%(employees_loop_spec _ _ _ dept team).
  rewrite lookup_empty in Hkey, Hemps, Hreps. simpl in Hemps, Hreps.
  split.
  - rewrite Hkey. split; [intros [[? ?]|?]; done|by right].
  - intros employees reported Hentry. rewrite Hentry in Hemps, Hreps.
    simpl in Hemps, Hreps.
    assert (Hemps' : ∀ emp, emp ∈ employees
              ↔ ∃ record, record ∈ data ∧ names_employee record dept team emp).
    { intros emp. rewrite Hemps. set_solver. }
    assert (Hreps' : ∀ emp, emp ∈ reported
              ↔ ∃ record, record ∈ data
                  ∧ names_employee record dept team emp
                  ∧ rec_tasks record ≠ []).
    { intros emp. rewrite Hreps. set_solver. }
    split; [done|]. split; [done|].
    apply subseteq_size. intros emp (r & Hin & Hr & _)%Hreps'.
    apply Hemps'. eauto.
Qed.

Lemma dept_team_summary_counts_witness :
  is_Some (({[ ("IT", "ops") := ({[ "Ann"; "Bob" ]}, {[ "Ann" ]}) ]}
            : gmap (string * string) (gset string * gset string))
             !! ("IT", "ops"))
  ↔ ∃ record emp,
      record ∈ [Report (Some (PStr "ops")) (Some (PStr "IT"))
                  (Some (PStr " Ann ")) [TaskOther "deploy"];
                Report (Some (PStr "ops")) (Some (PStr "IT"))
                  (Some (PStr "Bob")) [];
                Report (Some (PStr "ops")) (Some (PStr "IT"))
                  (Some (PStr "Ann")) []]
      ∧ names_employee record "IT" "ops" emp.
Proof.
  refine (proj1 (dept_team_summary_counts _ _ "IT" "ops" _)).
  vm_compute. reflexivity.
Defined.

Lemma key_leb_total (a b : string * string) :
  key_leb a b = true ∨ key_leb b a = true.
Proof.
  unfold key_leb. rewrite (String.compare_antisym b.1 a.1).
  destruct (String.compare a.1 b.1); simpl; [|by left|by right].
  apply String.leb_total.
Qed.

#[global] Instance item_le_total {V} : Total (@item_le V).
Proof. intros x y. apply key_leb_total. Qed.

(** X24: the rows of the table.  They come in the order of their
    [(department, team)] keys, no key comes twice, and there is one row for
    each entry of the summary, showing the size of its ["reported"] set
    (0 when nobody of the team reported). *)
Theorem summary_rows_sorted (data : list report) summary :
  dept_team_summary data = Some summary →
  ∃ rows : list (string * string * nat),
    summary_rows data = Some rows
    ∧ Sorted item_le rows
    ∧ NoDup rows.*1
    ∧ ∀ dept team n,
        (dept, team, n) ∈ rows
        ↔ ∃ employees reported,
            summary !! (dept, team) = Some (employees, reported)
            ∧ n = size reported.
Proof.
  intros Hsummary. unfold summary_rows. rewrite Hsummary. simpl.
  eexists. split; [done|].
  set (f := λ item : (string * string) * (gset string * gset string),
              (item.1.1, item.1.2, size item.2.2)).
  assert (Hkeys : ∀ l : list ((string * string) * (gset string * gset string)),
            (f <$> l).*1 = l.*1).
  { intros l. rewrite <- list_fmap_compose. apply list_fmap_ext.
    by intros _ [[d t] [e r]] _. }
  split; [|split].
  - apply (Sorted_fmap f item_le item_le); [|apply Sorted_merge_sort, _].
    by intros [[d1 t1] v1] [[d2 t2] v2].
  - rewrite Hkeys, merge_sort_Permutation. apply NoDup_fst_map_to_list.
  - intros dept team n. rewrite list_elem_of_fmap. split.
    + intros ([[d t] [e r]] & [= -> -> ->] & Hin).
      rewrite merge_sort_Permutation in Hin.
      apply elem_of_map_to_list in Hin. by exists e, r.
    + intros (e & r & Hentry & ->). exists ((dept, team), (e, r)).
      split; [done|]. rewrite merge_sort_Permutation.
      by apply elem_of_map_to_list.
Qed.

Lemma summary_rows_sorted_witness :
  ∃ rows : list (string * string * nat),
    summary_rows
      [Report (Some (PStr "ops")) (Some (PStr "IT"))
         (Some (PStr " Ann ")) [TaskOther "deploy"];
       Report (Some (PStr "dev")) (Some (PStr "IT")) (Some (PStr "Bob")) [];
       Report None (Some (PStr "HR")) (Some (PStr "Cy")) [TaskOther "hire"]]
    = Some rows
    ∧ Sorted item_le rows.
Proof.
  destruct (summary_rows_sorted
              [Report (Some (PStr "ops")) (Some (PStr "IT"))
                 (Some (PStr " Ann ")) [TaskOther "deploy"];
               Report (Some (PStr "dev")) (Some (PStr "IT"))
                 (Some (PStr "Bob")) [];
               Report None (Some (PStr "HR")) (Some (PStr "Cy"))
                 [TaskOther "hire"]]
              _ eq_refl) as (rows & Hrows & Hsorted & _).
  exists rows. split; [exact Hrows|exact Hsorted].
Defined.

Example summary_rows_example :
  summary_rows
    [Report (Some (PStr "ops")) (Some (PStr "IT"))
       (Some (PStr " Ann ")) [TaskOther "deploy"];
     Report (Some (PStr "dev")) (Some (PStr "IT")) (Some (PStr "Bob")) [];
     Report (Some (PStr "ops")) (Some (PStr "IT")) (Some (PStr "Ann")) [];
     Report None (Some (PStr "HR")) (Some (PStr "Cy")) [TaskOther "hire"]]
  = Some [("HR", "Unknown", 1%nat); ("IT", "dev", 0%nat); ("IT", "ops", 1%nat)].
Proof. vm_compute. reflexivity. Qed.
